(** * music-visualizer: a shallow embedding of [src/main.js]

    The program plays an uploaded audio file through a Web Audio analyser
    and, on every animation frame, rescales, deforms and recolours a
    three.js sphere from the analyser's byte data.

    Modelling conventions.
    - The program is embedded twice. In the first embedding a JavaScript
      number is a real number or a non-finite value ([JS.num]) and
      arithmetic is exact; it serves where a property is about which
      formula, index or cache the code uses. In the second ([Machine]) a
      number is an IEEE 754 binary64 datum, every operation rounds to
      nearest even, and a store into a [Float32Array] rounds to binary32;
      it serves where a property is about the numbers themselves.
    - A [Uint8Array] is a [list byte]. Reading past the end of a typed
      array yields [undefined], which arithmetic turns into [NaN]; writing
      past the end is ignored.
    - The browser (file reader, audio decoder, animation frames, analyser
      output) is the environment: it drives the program through [Event]s. *)

From Stdlib Require Import Reals Lra Lia ZArith QArith.
From Stdlib.Strings Require Import Byte String.
From Stdlib.Floats Require Import SpecFloat.
From stdpp Require Import base list.

(** ** JavaScript numbers *)

Module JS.

(** [Some r] is the finite number [r]; [None] stands for [NaN] (and any
    other non-finite value). *)
Definition num : Type := option R.

Definition NaN : num := None.
Definition fin (r : R) : num := Some r.

Definition lift2 (f : R -> R -> R) (x y : num) : num :=
  match x, y with
  | Some a, Some b => Some (f a b)
  | _, _ => None
  end.

Definition add : num -> num -> num := lift2 Rplus.
Definition sub : num -> num -> num := lift2 Rminus.
Definition mul : num -> num -> num := lift2 Rmult.

(** [x / y]; a zero divisor gives a non-finite result. *)
Definition div (x y : num) : num :=
  match x, y with
  | Some a, Some b => if Req_dec_T b 0 then None else Some (a / b)%R
  | _, _ => None
  end.

(** [Math.sqrt]. *)
Definition sqrt (x : num) : num :=
  match x with
  | Some a => if Rlt_dec a 0 then None else Some (R_sqrt.sqrt a)
  | None => None
  end.

(** The number held by an unsigned 8-bit array element. *)
Definition of_byte (b : byte) : R := IZR (Z.of_N (Byte.to_N b)).

(** The number of a length or an index. *)
Definition of_nat (n : nat) : num := fin (INR n).

End JS.

(** ** Typed arrays *)

Module TypedArray.

(** [new Uint8Array(n)]: [n] zero bytes. *)
Definition newUint8 (n : nat) : list byte := replicate n x00.

(** [a[i]] on a [Uint8Array], used as a number. *)
Definition u8At (a : list byte) (i : nat) : JS.num :=
  match a !! i with
  | Some b => JS.fin (JS.of_byte b)
  | None => JS.NaN
  end.

(** [a[i]] on a [Float32Array], used as a number. *)
Definition f32At (a : list JS.num) (i : nat) : JS.num :=
  match a !! i with
  | Some x => x
  | None => JS.NaN
  end.

(** [a[i] = v] on a [Float32Array]: in range it overwrites the slot, out
    of range it does nothing. *)
Definition f32Set (a : list JS.num) (i : nat) (v : JS.num) : list JS.num :=
  <[i := v]> a.

(** [a.slice()]: a fresh copy that shares nothing with [a]. *)
Definition slice (a : list JS.num) : list JS.num := a.

(** [analyser.getByte...Data(dst)]: the platform copies its current data
    [src] into [dst], as many elements as both have; [dst] keeps its
    length. *)
Definition fillFrom (src dst : list byte) : list byte :=
  take (length dst) src ++ drop (length src) dst.

End TypedArray.

Import TypedArray.

(** ** The mesh and one pass of [animate] over it *)

(** [shape.material.color]: set from a hex literal by [createSphere], from
    hue, saturation and lightness by [animate]. The conversion to RGB is
    done inside three.js. *)
Inductive Color : Type :=
| ColorHex (hex : Z)
| ColorHSL (h s l : JS.num).

(** The state of [shape] that [animate] reads and writes. *)
Record Mesh : Type := mkMesh {
  position : list JS.num;  (* geometry.attributes.position.array *)
  count : nat;  (* geometry.attributes.position.count *)
  originalPositions : option (list JS.num);  (* geometry.userData.originalPositions *)
  scale : JS.num;  (* shape.scale, x = y = z *)
  color : Color  (* shape.material.color *)
}.

(** What the analyser hands to one tick. *)
Record AnalysisFrame : Type := mkFrame {
  frequencyData : list byte;
  timeDomainData : list byte
}.

Definition radiusScaleFactor : R := 0.015.
Definition waveformScaleFactor : R := 0.035.

(** [frequencyData.reduce((a, b) => a + b, 0) / frequencyData.length] *)
Definition averageFrequency (frequencyData : list byte) : JS.num :=
  JS.div
    (fold_left (fun a b => JS.add a (JS.fin (JS.of_byte b))) frequencyData (JS.fin 0))
    (JS.of_nat (length frequencyData)).

(** [timeDomainData[i % timeDomainData.length] / 128 - 1]. For an empty
    array JavaScript's [i % 0] is [NaN] and the read is [undefined]; here
    [i mod 0 = i] and the read of the empty list is [undefined] as well. *)
Definition timeDomainValue (timeDomainData : list byte) (i : nat) : JS.num :=
  JS.sub
    (JS.div (u8At timeDomainData (i mod length timeDomainData)) (JS.fin 128))
    (JS.fin 1).

(** [1 + timeDomainValue * waveformScaleFactor] *)
Definition waveFactor (timeDomainData : list byte) (i : nat) : JS.num :=
  JS.add (JS.fin 1)
    (JS.mul (timeDomainValue timeDomainData i) (JS.fin waveformScaleFactor)).

(** The body of the vertex loop for one [i]. *)
Definition deformVertex (originalPositions : list JS.num)
    (timeDomainData : list byte) (array : list JS.num) (i : nat) : list JS.num :=
  let index := i * 3 in
  let array :=
    f32Set array index
      (JS.mul (f32At originalPositions index) (waveFactor timeDomainData i)) in
  let array :=
    f32Set array (index + 1)
      (JS.mul (f32At originalPositions (index + 1)) (waveFactor timeDomainData i)) in
  f32Set array (index + 2)
    (JS.mul (f32At originalPositions (index + 2)) (waveFactor timeDomainData i)).

(** [for (let i = 0; i < positionAttribute.count; i++) { ... }] *)
Definition deformLoop (originalPositions : list JS.num)
    (timeDomainData : list byte) (count : nat) (array : list JS.num) : list JS.num :=
  fold_left (deformVertex originalPositions timeDomainData) (seq 0 count) array.

(** [Math.sqrt(frequencyData.reduce((sum, value) => sum + value * value, 0)
    / frequencyData.length)] *)
Definition volumeOf (frequencyData : list byte) : JS.num :=
  JS.sqrt
    (JS.div
      (fold_left
        (fun sum value =>
          JS.add sum (JS.mul (JS.fin (JS.of_byte value)) (JS.fin (JS.of_byte value))))
        frequencyData (JS.fin 0))
      (JS.of_nat (length frequencyData))).

(** [getColorFromVolume]: [new THREE.Color().setHSL(volume / 255, 1, 0.5)] *)
Definition getColorFromVolume (volume : JS.num) : Color :=
  let hue := JS.div volume (JS.fin 255) in
  ColorHSL hue (JS.fin 1) (JS.fin 0.5).

(** The rest pose a pass works from:
    [geometry.userData.originalPositions || positionAttribute.array.slice()].
    A typed array is an object and so always truthy. *)
Definition restPose (m : Mesh) : list JS.num :=
  match originalPositions m with
  | Some cached => cached
  | None => slice (position m)
  end.

(** Everything [animate] does to [shape] for one frame of analyser data. *)
Definition animateShape (frame : AnalysisFrame) (m : Mesh) : Mesh :=
  let scale' :=
    JS.add (JS.fin 1)
      (JS.mul (averageFrequency (frequencyData frame)) (JS.fin radiusScaleFactor)) in
  let originalPositions' := restPose m in
  let position' :=
    deformLoop originalPositions' (timeDomainData frame) (count m) (position m) in
  let volume := volumeOf (frequencyData frame) in
  let volColor := getColorFromVolume volume in
  {| position := position';
     count := count m;
     originalPositions := Some originalPositions';
     scale := scale';
     color := volColor |}.

(** ** The analyser *)

(** [analyser], as far as the program configures it. *)
Record Analyser : Type := mkAnalyser {
  fftSize : Z
}.

(** Modelled from the spec: [AnalyserNode.frequencyBinCount] belongs to the
    Web Audio platform and is not in [src/]; the spec gives the bin count
    as B = fftSize / 2. *)
Definition frequencyBinCount (a : Analyser) : nat := Z.to_nat (fftSize a / 2).

(** The two arrays of one tick: each is allocated with
    [new Uint8Array(analyser.frequencyBinCount)] and then filled by the
    analyser, whose current data [raw] comes from the platform. *)
Definition sampleFrame (a : Analyser) (raw : AnalysisFrame) : AnalysisFrame :=
  {| frequencyData :=
       fillFrom (frequencyData raw) (newUint8 (frequencyBinCount a));
     timeDomainData :=
       fillFrom (timeDomainData raw) (newUint8 (frequencyBinCount a)) |}.

(** ** The page as a state machine *)

(** The chosen file: its bytes. *)
Definition File : Type := list byte.

(** The module-level variables of [main.js] together with what the page has
    asked of the browser and has not yet been answered. [audioCtx] and
    [analyser] are created together, so one field stands for both. *)
Record Session : Type := mkSession {
  analyser : option Analyser;
  shape : option Mesh;
  formVisible : bool;  (* fieldset and content still shown *)
  readsInFlight : nat;  (* reader.readAsArrayBuffer calls not yet answered *)
  decodesInFlight : nat;  (* audioCtx.decodeAudioData promises not yet settled *)
  sourcesStarted : nat;  (* soundSource.start(0) calls *)
  rafPending : nat;  (* animate callbacks handed to requestAnimationFrame *)
  draws : nat;  (* renderer.render calls *)
  console : list string;  (* console.error messages *)
  alerts : list string  (* alert boxes shown to the user *)
}.

(** The scheduler of the spec: Running exactly when a tick is scheduled. *)
Inductive SchedulerState : Type := Idle | Running.

Definition scheduler (s : Session) : SchedulerState :=
  match rafPending s with
  | O => Idle
  | S _ => Running
  end.

(** What the browser can do to the page. [Click] and [AnimationFrame] carry
    the data the analyser would deliver if it were sampled at that moment. *)
Inductive Event : Type :=
| Click (file : option File) (raw : AnalysisFrame)
| ReaderLoad
| ReaderError
| DecodeResolve
| DecodeReject
| AnimationFrame (raw : AnalysisFrame).

Definition initialSession : Session :=
  {| analyser := None; shape := None; formVisible := true;
     readsInFlight := 0; decodesInFlight := 0; sourcesStarted := 0;
     rafPending := 0; draws := 0; console := []; alerts := [] |}.

Section Page.

(** The vertex table of [new THREE.SphereGeometry(1, 64, 64)], computed
    inside three.js. *)
Variable sphereVertices : list (R * R * R).

(** [createSphere]: the mesh it returns. The lights it adds to the scene
    play no part in what follows. *)
Definition createSphere : Mesh :=
  {| position :=
       flat_map (fun v => [JS.fin v.1.1; JS.fin v.1.2; JS.fin v.2]) sphereVertices;
     count := length sphereVertices;
     originalPositions := None;
     scale := JS.fin 1;
     color := ColorHex 0xff69b4 |}.

(** [readFile]: starts reading the chosen file; the handlers run later. *)
Definition readFile (s : Session) : Session :=
  {| analyser := analyser s; shape := shape s; formVisible := formVisible s;
     readsInFlight := S (readsInFlight s);
     decodesInFlight := decodesInFlight s; sourcesStarted := sourcesStarted s;
     rafPending := rafPending s; draws := draws s;
     console := console s; alerts := alerts s |}.

(** [reader.onload]: hands the bytes to [decodeAudioData]. *)
Definition readerOnload (s : Session) : Session :=
  {| analyser := analyser s; shape := shape s; formVisible := formVisible s;
     readsInFlight := pred (readsInFlight s);
     decodesInFlight := S (decodesInFlight s);
     sourcesStarted := sourcesStarted s;
     rafPending := rafPending s; draws := draws s;
     console := console s; alerts := alerts s |}.

(** [reader.onerror] *)
Definition readerOnerror (s : Session) : Session :=
  {| analyser := analyser s; shape := shape s; formVisible := formVisible s;
     readsInFlight := pred (readsInFlight s);
     decodesInFlight := decodesInFlight s; sourcesStarted := sourcesStarted s;
     rafPending := rafPending s; draws := draws s;
     console := console s ++ ["Error reading file:"%string];
     alerts := alerts s |}.

(** The [then] branch of [decodeAudioData]: connect the source and start
    playback. *)
Definition decodeThen (s : Session) : Session :=
  {| analyser := analyser s; shape := shape s; formVisible := formVisible s;
     readsInFlight := readsInFlight s;
     decodesInFlight := pred (decodesInFlight s);
     sourcesStarted := S (sourcesStarted s);
     rafPending := rafPending s; draws := draws s;
     console := console s; alerts := alerts s |}.

(** The [catch] branch of [decodeAudioData]. *)
Definition decodeCatch (s : Session) : Session :=
  {| analyser := analyser s; shape := shape s; formVisible := formVisible s;
     readsInFlight := readsInFlight s;
     decodesInFlight := pred (decodesInFlight s);
     sourcesStarted := sourcesStarted s;
     rafPending := rafPending s; draws := draws s;
     console := console s ++ ["Error decoding audio data:"%string];
     alerts := alerts s |}.

(** [animate]: request the next frame, then sample, update [shape] and
    render. Were [analyser] or [shape] still unset, the first use would
    throw after the request had been made. *)
Definition animate (raw : AnalysisFrame) (s : Session) : Session :=
  match analyser s, shape s with
  | Some a, Some m =>
      {| analyser := analyser s;
         shape := Some (animateShape (sampleFrame a raw) m);
         formVisible := formVisible s;
         readsInFlight := readsInFlight s;
         decodesInFlight := decodesInFlight s;
         sourcesStarted := sourcesStarted s;
         rafPending := S (rafPending s);
         draws := S (draws s);
         console := console s; alerts := alerts s |}
  | _, _ =>
      {| analyser := analyser s; shape := shape s;
         formVisible := formVisible s;
         readsInFlight := readsInFlight s;
         decodesInFlight := decodesInFlight s;
         sourcesStarted := sourcesStarted s;
         rafPending := S (rafPending s);
         draws := draws s;
         console := console s; alerts := alerts s |}
  end.

(** The first lines of the click handler: create the audio context and
    the analyser once. *)
Definition initAudio (s : Session) : Session :=
  match analyser s with
  | Some _ => s
  | None =>
      {| analyser := Some {| fftSize := 8192%Z |};
         shape := shape s; formVisible := formVisible s;
         readsInFlight := readsInFlight s;
         decodesInFlight := decodesInFlight s;
         sourcesStarted := sourcesStarted s;
         rafPending := rafPending s; draws := draws s;
         console := console s; alerts := alerts s |}
  end.

(** The click handler of the play button. *)
Definition onClick (file : option File) (raw : AnalysisFrame) (s : Session)
    : Session :=
  let s := initAudio s in
  match file with
  | None =>
      {| analyser := analyser s; shape := shape s;
         formVisible := formVisible s;
         readsInFlight := readsInFlight s;
         decodesInFlight := decodesInFlight s;
         sourcesStarted := sourcesStarted s;
         rafPending := rafPending s; draws := draws s;
         console := console s;
         alerts := alerts s ++ ["Please upload an audio file first."%string] |}
  | Some _ =>
      let s :=
        {| analyser := analyser s; shape := shape s;
           formVisible := false;
           readsInFlight := readsInFlight s;
           decodesInFlight := decodesInFlight s;
           sourcesStarted := sourcesStarted s;
           rafPending := rafPending s; draws := draws s;
           console := console s; alerts := alerts s |} in
      let s := readFile s in
      let s :=
        {| analyser := analyser s; shape := Some createSphere;
           formVisible := formVisible s;
           readsInFlight := readsInFlight s;
           decodesInFlight := decodesInFlight s;
           sourcesStarted := sourcesStarted s;
           rafPending := rafPending s; draws := draws s;
           console := console s; alerts := alerts s |} in
      animate raw s
  end.

(** The callback the browser runs for a scheduled frame. *)
Definition onAnimationFrame (raw : AnalysisFrame) (s : Session) : Session :=
  animate raw
    {| analyser := analyser s; shape := shape s;
       formVisible := formVisible s;
       readsInFlight := readsInFlight s;
       decodesInFlight := decodesInFlight s;
       sourcesStarted := sourcesStarted s;
       rafPending := pred (rafPending s);
       draws := draws s;
       console := console s; alerts := alerts s |}.

(** One event. The browser only answers what was asked: an event for
    which nothing is pending does not occur and leaves the page as it is. *)
Definition step (s : Session) (e : Event) : Session :=
  match e with
  | Click file raw => onClick file raw s
  | ReaderLoad =>
      match readsInFlight s with O => s | S _ => readerOnload s end
  | ReaderError =>
      match readsInFlight s with O => s | S _ => readerOnerror s end
  | DecodeResolve =>
      match decodesInFlight s with O => s | S _ => decodeThen s end
  | DecodeReject =>
      match decodesInFlight s with O => s | S _ => decodeCatch s end
  | AnimationFrame raw =>
      match rafPending s with O => s | S _ => onAnimationFrame raw s end
  end.

(** The page after a sequence of events, from a fresh load. *)
Definition run (events : list Event) : Session :=
  fold_left step events initialSession.

End Page.

(** Whether an event is a click on the play button with a file chosen. *)
Definition clicksWithFile (e : Event) : bool :=
  match e with
  | Click (Some _) _ => true
  | _ => false
  end.

(** ** Vocabulary of the specification *)

(** A mesh of [count] whole vertices whose rest pose, cached or about to be
    captured, has a slot for every live slot. *)
Definition wellFormed (m : Mesh) : Prop :=
  length (position m) = count m * 3 /\
  length (restPose m) = length (position m).

(** A non-empty time-domain array in which every sample is 128, the byte
    of a silent signal. *)
Definition zeroSignal (timeDomainData : list byte) : Prop :=
  timeDomainData <> [] /\ Forall (fun b => b = x80) timeDomainData.

(** [animate] run on one frame after the other. *)
Definition animateAll (frames : list AnalysisFrame) (m : Mesh) : Mesh :=
  fold_left (fun m frame => animateShape frame m) frames m.

Definition sumBytes (bins : list byte) : R :=
  foldr (fun b acc => (JS.of_byte b + acc)%R) 0%R bins.

Definition sumSquares (bins : list byte) : R :=
  foldr (fun b acc => (JS.of_byte b * JS.of_byte b + acc)%R) 0%R bins.

(** The arithmetic mean of the bins, in the words of the specification. *)
Definition arithmeticMean (bins : list byte) : R :=
  (sumBytes bins / INR (length bins))%R.

(** The root mean square of the bins, in the words of the specification. *)
Definition rootMeanSquare (bins : list byte) : R :=
  R_sqrt.sqrt (sumSquares bins / INR (length bins)).

(** [m] is [m0] after some passes of [animate]: same shape of data, same
    rest pose, and the slots beyond the last vertex never touched. *)
Definition evolvedFrom (m0 m : Mesh) : Prop :=
  length (position m) = length (position m0) /\
  count m = count m0 /\
  restPose m = restPose m0 /\
  forall j, count m0 * 3 <= j -> position m !! j = position m0 !! j.

(** ** Sample data *)

(** A mesh of one vertex, as [createSphere] would leave it. *)
Definition oneVertex : Mesh :=
  {| position := [JS.fin 1; JS.fin 2; JS.fin (-3)];
     count := 1;
     originalPositions := None;
     scale := JS.fin 1;
     color := ColorHex 0xff69b4 |}.

(** A mesh of two vertices. *)
Definition twoVertices : Mesh :=
  {| position := [JS.fin 1; JS.fin 0; JS.fin 0; JS.fin 0; JS.fin 2; JS.fin 0];
     count := 2;
     originalPositions := None;
     scale := JS.fin 1;
     color := ColorHex 0xff69b4 |}.

(** Silence: no energy in any bin, every sample at the midpoint. *)
Definition silentFrame : AnalysisFrame :=
  {| frequencyData := [x00; x00]; timeDomainData := [x80; x80] |}.

(** Full scale in every bin and every sample. *)
Definition loudFrame : AnalysisFrame :=
  {| frequencyData := [xff; xff]; timeDomainData := [xff; xff] |}.

(** Three samples, for a mesh of two vertices. *)
Definition mixedFrame : AnalysisFrame :=
  {| frequencyData := [x00; x80; xff]; timeDomainData := [x00; x80; xff] |}.

(** ** Counting events *)

(** How many events of a run satisfy [p]. *)
Definition countEvents (p : Event -> bool) (events : list Event) : nat :=
  length (List.filter p events).

(** Whether an event is a click on the play button with no file chosen. *)
Definition clicksWithoutFile (e : Event) : bool :=
  match e with
  | Click None _ => true
  | _ => false
  end.

(** Whether an event is a click on the play button at all. *)
Definition isClick (e : Event) : bool :=
  match e with
  | Click _ _ => true
  | _ => false
  end.

(** ** Camera and renderer *)

(** [camera] and [renderer], as far as the program sets them. The
    projection matrix is kept by three.js; [projectedAspect] is the aspect
    ratio it was last computed from. *)
Record View : Type := mkView {
  fov : R;  (* camera.fov *)
  aspect : JS.num;  (* camera.aspect *)
  near : R;  (* camera.near *)
  far : R;  (* camera.far *)
  cameraZ : R;  (* camera.position.z *)
  projectedAspect : JS.num;
  rendererWidth : nat;  (* renderer.setSize, first argument *)
  rendererHeight : nat;  (* renderer.setSize, second argument *)
  clearColor : Z  (* renderer.setClearColor *)
}.

(** [camera.updateProjectionMatrix()] *)
Definition updateProjectionMatrix (v : View) : View :=
  {| fov := fov v; aspect := aspect v; near := near v; far := far v;
     cameraZ := cameraZ v;
     projectedAspect := aspect v;
     rendererWidth := rendererWidth v; rendererHeight := rendererHeight v;
     clearColor := clearColor v |}.

(** The camera and renderer set up when the module loads, in a window of
    the given inner size. The camera constructor computes the projection. *)
Definition initialView (innerWidth innerHeight : nat) : View :=
  updateProjectionMatrix
    {| fov := 75;
       aspect := JS.div (JS.of_nat innerWidth) (JS.of_nat innerHeight);
       near := 0.1; far := 1000;
       cameraZ := 5;
       projectedAspect := JS.NaN;
       rendererWidth := innerWidth; rendererHeight := innerHeight;
       clearColor := 0x000000 |}.

(** [onWindowResize], in a window of the given inner size. *)
Definition onWindowResize (innerWidth innerHeight : nat) (v : View) : View :=
  let v :=
    {| fov := fov v;
       aspect := JS.div (JS.of_nat innerWidth) (JS.of_nat innerHeight);
       near := near v; far := far v; cameraZ := cameraZ v;
       projectedAspect := projectedAspect v;
       rendererWidth := rendererWidth v; rendererHeight := rendererHeight v;
       clearColor := clearColor v |} in
  let v := updateProjectionMatrix v in
  {| fov := fov v; aspect := aspect v; near := near v; far := far v;
     cameraZ := cameraZ v;
     projectedAspect := projectedAspect v;
     rendererWidth := innerWidth; rendererHeight := innerHeight;
     clearColor := clearColor v |}.

(** The view after the window has taken the given sizes one after the
    other. *)
Definition resizeAll (sizes : list (nat * nat)) (v : View) : View :=
  fold_left (fun v size => onWindowResize size.1 size.2 v) sizes v.

(** ** The same pass in binary64, with binary32 stores *)

Module Machine.

(** A JavaScript number as the machine holds it: a binary64 datum. *)
Definition num : Type := spec_float.

Definition NaN : num := S754_nan.

Definition add : num -> num -> num := SFadd 53 1024.
Definition sub : num -> num -> num := SFsub 53 1024.
Definition mul : num -> num -> num := SFmul 53 1024.
Definition div : num -> num -> num := SFdiv 53 1024.
Definition sqrt : num -> num := SFsqrt 53 1024.

(** The number of an integer. *)
Definition of_Z (z : Z) : num := binary_normalize 53 1024 z 0 false.

(** A decimal literal [n / d], [d] a power of ten: the binary64 number
    nearest to it, which the correctly rounded quotient is. *)
Definition decimal (n d : Z) : num := div (of_Z n) (of_Z d).

(** The number held by an unsigned 8-bit array element. *)
Definition of_byte (b : byte) : num := of_Z (Z.of_N (Byte.to_N b)).

(** The number of a length. *)
Definition of_nat (n : nat) : num := of_Z (Z.of_nat n).

(** What a [Float32Array] slot keeps of a number: its rounding to
    binary32. *)
Definition fround (x : num) : spec_float :=
  match x with
  | S754_finite s m e => binary_round 24 128 s m e
  | _ => x
  end.

(** The number a [Float32Array] slot yields: the same value, as binary64. *)
Definition widen (x : spec_float) : num :=
  match x with
  | S754_finite s m e => binary_round 53 1024 s m e
  | _ => x
  end.

(** [a[i]] on a [Uint8Array], used as a number. *)
Definition u8At (a : list byte) (i : nat) : num :=
  match a !! i with
  | Some b => of_byte b
  | None => NaN
  end.

(** [a[i]] on a [Float32Array], used as a number. *)
Definition f32At (a : list spec_float) (i : nat) : num :=
  match a !! i with
  | Some x => widen x
  | None => NaN
  end.

(** [a[i] = v] on a [Float32Array]. *)
Definition f32Set (a : list spec_float) (i : nat) (v : num) : list spec_float :=
  <[i := fround v]> a.

Inductive Color : Type :=
| ColorHex (hex : Z)
| ColorHSL (h s l : num).

Record Mesh : Type := mkMesh {
  position : list spec_float;  (* geometry.attributes.position.array *)
  count : nat;  (* geometry.attributes.position.count *)
  originalPositions : option (list spec_float);
  scale : num;  (* shape.scale, x = y = z *)
  color : Color  (* shape.material.color *)
}.

Definition radiusScaleFactor : num := decimal 15 1000.
Definition waveformScaleFactor : num := decimal 35 1000.

(** [frequencyData.reduce((a, b) => a + b, 0) / frequencyData.length] *)
Definition averageFrequency (frequencyData : list byte) : num :=
  div
    (fold_left (fun a b => add a (of_byte b)) frequencyData (of_Z 0))
    (of_nat (length frequencyData)).

(** [timeDomainData[i % timeDomainData.length] / 128 - 1] *)
Definition timeDomainValue (timeDomainData : list byte) (i : nat) : num :=
  sub
    (div (u8At timeDomainData (i mod length timeDomainData)) (of_Z 128))
    (of_Z 1).

(** [1 + timeDomainValue * waveformScaleFactor] *)
Definition waveFactor (timeDomainData : list byte) (i : nat) : num :=
  add (of_Z 1) (mul (timeDomainValue timeDomainData i) waveformScaleFactor).

(** The body of the vertex loop for one [i]. *)
Definition deformVertex (originalPositions : list spec_float)
    (timeDomainData : list byte) (array : list spec_float) (i : nat)
    : list spec_float :=
  let index := i * 3 in
  let array :=
    f32Set array index
      (mul (f32At originalPositions index) (waveFactor timeDomainData i)) in
  let array :=
    f32Set array (index + 1)
      (mul (f32At originalPositions (index + 1)) (waveFactor timeDomainData i)) in
  f32Set array (index + 2)
    (mul (f32At originalPositions (index + 2)) (waveFactor timeDomainData i)).

(** [for (let i = 0; i < positionAttribute.count; i++) { ... }] *)
Definition deformLoop (originalPositions : list spec_float)
    (timeDomainData : list byte) (count : nat) (array : list spec_float)
    : list spec_float :=
  fold_left (deformVertex originalPositions timeDomainData) (seq 0 count) array.

(** [Math.sqrt(frequencyData.reduce((sum, value) => sum + value * value, 0)
    / frequencyData.length)] *)
Definition volumeOf (frequencyData : list byte) : num :=
  sqrt
    (div
      (fold_left
        (fun sum value => add sum (mul (of_byte value) (of_byte value)))
        frequencyData (of_Z 0))
      (of_nat (length frequencyData))).

(** [getColorFromVolume] *)
Definition getColorFromVolume (volume : num) : Color :=
  let hue := div volume (of_Z 255) in
  ColorHSL hue (of_Z 1) (decimal 5 10).

(** [geometry.userData.originalPositions || positionAttribute.array.slice()] *)
Definition restPose (m : Mesh) : list spec_float :=
  match originalPositions m with
  | Some cached => cached
  | None => position m
  end.

(** Everything [animate] does to [shape] for one frame of analyser data. *)
Definition animateShape (frame : AnalysisFrame) (m : Mesh) : Mesh :=
  let scale' :=
    add (of_Z 1) (mul (averageFrequency (frequencyData frame)) radiusScaleFactor) in
  let originalPositions' := restPose m in
  let position' :=
    deformLoop originalPositions' (timeDomainData frame) (count m) (position m) in
  let volume := volumeOf (frequencyData frame) in
  let volColor := getColorFromVolume volume in
  {| position := position';
     count := count m;
     originalPositions := Some originalPositions';
     scale := scale';
     color := volColor |}.


(** The exact value of a finite datum, as a rational. *)
Definition exact (x : spec_float) : Q :=
  match x with
  | S754_finite s m e =>
      ((if s then Zneg m else Zpos m) # 1) * Qpower (2 # 1) e
  | _ => 0
  end.

(** A finite datum other than zero. *)
Definition finiteNonzero (x : spec_float) : Prop :=
  exists s m e, x = S754_finite s m e.

(** The sign of a datum that has one. *)
Definition signOf (x : spec_float) : option bool :=
  match x with
  | S754_zero s | S754_infinity s | S754_finite s _ _ => Some s
  | S754_nan => None
  end.

(** A datum that is neither zero nor NaN. *)
Definition awayFromZero (x : spec_float) : bool :=
  match x with
  | S754_finite _ _ _ | S754_infinity _ => true
  | _ => false
  end.

(** Whether a factor is a positive finite number of magnitude at least
    1/2 that lies between the binary64 numbers 0.965 and 1.0347265625 and
    whose exact value lies in [0.9649999999999999, 1.0347265625]. *)
Definition factorInRange (f : num) : bool :=
  match f with
  | S754_finite false m e =>
      (0 <=? Zpos (digits2_pos m) + e)%Z
      && SFleb (decimal 965 1000) f
      && SFleb f (decimal 10347265625 10000000000)
      && SFltb (of_Z 0) f
      && Qle_bool (9649999999999999 # 10000000000000000) (exact f)
      && Qle_bool (exact f) (10347265625 # 10000000000)
  | _ => false
  end.

(** Whether the smallest positive or negative binary32 number, times the
    factor of sample [b], is stored as a number away from zero of the same
    sign. *)
Definition smallestKeepsSign (s : bool) (b : byte) : bool :=
  let y := fround (mul (widen (S754_finite s 1 (-149))) (waveFactor [b] 0)) in
  awayFromZero y
  && match signOf y with
     | Some s' => Bool.eqb s s'
     | None => false
     end.

(** A mesh of one vertex, at (1, 2, -3). *)
Definition oneVertex : Mesh :=
  {| position := [fround (of_Z 1); fround (of_Z 2); fround (of_Z (-3))];
     count := 1;
     originalPositions := None;
     scale := of_Z 1;
     color := ColorHex 0xff69b4 |}.

End Machine.


(** ** Arithmetic on JavaScript numbers *)

Lemma mul_fin (a b : R) : JS.mul (JS.fin a) (JS.fin b) = JS.fin (a * b).
Proof. reflexivity. Qed.

Lemma add_fin (a b : R) : JS.add (JS.fin a) (JS.fin b) = JS.fin (a + b).
Proof. reflexivity. Qed.

Lemma sub_fin (a b : R) : JS.sub (JS.fin a) (JS.fin b) = JS.fin (a - b).
Proof. reflexivity. Qed.

Lemma div_fin (a b : R) :
  b <> 0%R -> JS.div (JS.fin a) (JS.fin b) = JS.fin (a / b).
Proof.
  intros Hb. unfold JS.div, JS.fin.
  destruct (Req_dec_T b 0) as [E | _]; [contradiction | reflexivity].
Qed.

Lemma sqrt_fin (a : R) :
  (0 <= a)%R -> JS.sqrt (JS.fin a) = JS.fin (R_sqrt.sqrt a).
Proof.
  intros Ha. unfold JS.sqrt, JS.fin.
  destruct (Rlt_dec a 0) as [E | _]; [lra | reflexivity].
Qed.

Lemma mul_one_r (x : JS.num) : JS.mul x (JS.fin 1) = x.
Proof.
  destruct x as [a |]; [| reflexivity].
  unfold JS.mul, JS.lift2, JS.fin. f_equal. lra.
Qed.

Lemma of_byte_range (b : byte) : (0 <= JS.of_byte b <= 255)%R.
Proof.
  unfold JS.of_byte.
  pose proof (Byte.to_N_bounded b) as Hb.
  split.
  - apply IZR_le. lia.
  - apply IZR_le. lia.
Qed.

(** ** The vertex loop, slot by slot *)

Lemma deformVertex_length orig td arr i :
  length (deformVertex orig td arr i) = length arr.
Proof. unfold deformVertex, f32Set. by rewrite !length_insert. Qed.

Lemma deformLoop_length orig td n arr :
  length (deformLoop orig td n arr) = length arr.
Proof.
  unfold deformLoop. induction n as [| n IH]; [reflexivity |].
  rewrite seq_S, fold_left_app. simpl.
  by rewrite deformVertex_length.
Qed.

(** One iteration overwrites the three slots of vertex [i] that exist and
    nothing else. *)
Lemma deformVertex_lookup orig td arr i j :
  deformVertex orig td arr i !! j =
    if decide (i * 3 <= j < i * 3 + 3 /\ j < length arr)
    then Some (JS.mul (f32At orig j) (waveFactor td i))
    else arr !! j.
Proof.
  unfold deformVertex, f32Set.
  case_decide as Hj.
  - destruct Hj as [[Hlo Hhi] Hlen].
    destruct (decide (j = i * 3 + 2)) as [-> | N2].
    { rewrite list_lookup_insert_eq; [done |]. by rewrite !length_insert. }
    rewrite list_lookup_insert_ne by lia.
    destruct (decide (j = i * 3 + 1)) as [-> | N1].
    { rewrite list_lookup_insert_eq; [done |]. by rewrite !length_insert. }
    rewrite list_lookup_insert_ne by lia.
    assert (j = i * 3) as -> by lia.
    by rewrite list_lookup_insert_eq.
  - destruct (decide (j < length arr)) as [Hlen | Hlen].
    + rewrite !list_lookup_insert_ne by lia. done.
    + rewrite !(proj2 (lookup_ge_None _ _)); [done | lia |].
      rewrite !length_insert. lia.
Qed.

(** After [n] iterations the first [n] vertices hold the rest pose times
    their own factor; every other slot is as it was. *)
Lemma deformLoop_lookup orig td n arr j :
  deformLoop orig td n arr !! j =
    if decide (j < n * 3 /\ j < length arr)
    then Some (JS.mul (f32At orig j) (waveFactor td (j / 3)))
    else arr !! j.
Proof.
  induction n as [| n IH].
  - destruct (decide (j < 0 * 3 /\ j < length arr)); [lia | done].
  - unfold deformLoop. rewrite seq_S, fold_left_app.
    cbn [fold_left Nat.add].
    fold (deformLoop orig td n arr).
    rewrite deformVertex_lookup, deformLoop_length, IH.
    repeat case_decide; try lia; try done.
    assert (j / 3 = n) as ->
      by (symmetry; apply Nat.div_unique with (r := j - n * 3); lia).
    done.
Qed.

Lemma animateShape_lookup frame m j :
  position (animateShape frame m) !! j =
    if decide (j < count m * 3 /\ j < length (position m))
    then Some (JS.mul (f32At (restPose m) j)
                 (waveFactor (timeDomainData frame) (j / 3)))
    else position m !! j.
Proof. apply deformLoop_lookup. Qed.

Lemma animateShape_length frame m :
  length (position (animateShape frame m)) = length (position m).
Proof. apply deformLoop_length. Qed.

Lemma animateShape_restPose frame m :
  restPose (animateShape frame m) = restPose m.
Proof. reflexivity. Qed.

(** Once cached, the rest pose is what every later pass stores back. *)
Lemma animateShape_keeps_cache frame m cached :
  originalPositions m = Some cached ->
  originalPositions (animateShape frame m) = Some cached.
Proof. intros H. unfold animateShape, restPose. cbn. by rewrite H. Qed.

Lemma animateShape_wellFormed frame m :
  wellFormed m -> wellFormed (animateShape frame m).
Proof.
  intros [Hlen Hrest]. split.
  - by rewrite animateShape_length.
  - by rewrite animateShape_restPose, animateShape_length.
Qed.

(** ** The factor of one vertex *)

(** With a sample in reach the factor is the finite number the source
    spells out. *)
Lemma waveFactor_sample td i b :
  td !! (i mod length td) = Some b ->
  waveFactor td i =
    JS.fin (1 + (JS.of_byte b / 128 - 1) * waveformScaleFactor).
Proof.
  intros Hb. unfold waveFactor, timeDomainValue, u8At. rewrite Hb.
  rewrite div_fin by lra.
  by rewrite sub_fin, mul_fin, add_fin.
Qed.

(** A non-empty array always has a sample at [i mod length]. *)
Lemma sample_in_range (td : list byte) i :
  td <> [] ->
  i mod length td < length td /\ exists b, td !! (i mod length td) = Some b.
Proof.
  intros Hne.
  assert (length td <> 0) as Hlen by (destruct td; [done | simpl; lia]).
  pose proof (Nat.mod_upper_bound i (length td) Hlen) as Hlt.
  split; [exact Hlt |].
  destruct (lookup_lt_is_Some_2 td (i mod length td) Hlt) as [b Hb].
  by exists b.
Qed.

Lemma zeroSignal_factor td i : zeroSignal td -> waveFactor td i = JS.fin 1.
Proof.
  intros [Hne Hall].
  destruct (sample_in_range td i Hne) as [_ [b Hb]].
  rewrite (waveFactor_sample td i b Hb).
  assert (b = x80) as ->.
  { rewrite Forall_forall in Hall. apply Hall.
    apply list_elem_of_lookup. eauto. }
  unfold JS.fin, JS.of_byte, waveformScaleFactor. f_equal. simpl. lra.
Qed.

(** ** Passes over the same mesh *)

Lemma evolvedFrom_refl m : evolvedFrom m m.
Proof. by repeat split. Qed.

Lemma evolvedFrom_step frame m0 m :
  evolvedFrom m0 m -> evolvedFrom m0 (animateShape frame m).
Proof.
  intros (Hlen & Hcount & Hrest & Htail). repeat split.
  - by rewrite animateShape_length.
  - exact Hcount.
  - by rewrite animateShape_restPose.
  - intros j Hj. rewrite animateShape_lookup.
    case_decide; [lia |]. by apply Htail.
Qed.

Lemma evolvedFrom_all frames m0 m :
  evolvedFrom m0 m -> evolvedFrom m0 (animateAll frames m).
Proof.
  revert m. induction frames as [| frame frames IH]; intros m Hm; [exact Hm |].
  apply IH. by apply evolvedFrom_step.
Qed.

(** A pass forgets the live positions it starts from: only the rest pose
    and the frame matter. *)
Lemma animateShape_forgets_history frame m0 m :
  evolvedFrom m0 m ->
  position (animateShape frame m) = position (animateShape frame m0).
Proof.
  intros (Hlen & Hcount & Hrest & Htail).
  apply list_eq. intros j. rewrite !animateShape_lookup.
  rewrite Hlen, Hcount, Hrest.
  case_decide as Hj; [done |].
  destruct (decide (j < length (position m0))) as [Hin | Hout].
  - apply Htail. lia.
  - rewrite !(proj2 (lookup_ge_None _ _)); [done | lia | lia].
Qed.

Lemma zero_signal_pass frame m :
  wellFormed m -> zeroSignal (timeDomainData frame) ->
  position (animateShape frame m) = restPose m.
Proof.
  intros [Hlen Hrest] Hzero.
  apply list_eq. intros j. rewrite animateShape_lookup.
  case_decide as Hj.
  - rewrite zeroSignal_factor by done. rewrite mul_one_r.
    unfold f32At.
    destruct (lookup_lt_is_Some_2 (restPose m) j) as [x Hx]; [lia |].
    by rewrite Hx.
  - rewrite !(proj2 (lookup_ge_None _ _)); [done | lia | lia].
Qed.

Lemma zero_signal_passes frames m :
  wellFormed m ->
  Forall (fun frame => zeroSignal (timeDomainData frame)) frames ->
  position m = restPose m ->
  position (animateAll frames m) = restPose m.
Proof.
  revert m. induction frames as [| frame frames IH]; intros m Hwf Hall Hpos.
  - exact Hpos.
  - apply Forall_cons in Hall as [Hzero Hall].
    change (position (animateAll frames (animateShape frame m)) = restPose m).
    rewrite <- (animateShape_restPose frame m).
    apply IH.
    + by apply animateShape_wellFormed.
    + exact Hall.
    + rewrite animateShape_restPose. by apply zero_signal_pass.
Qed.

(** C2: on a mesh of whole vertices, a pass whose time-domain samples are
    all 128 leaves every live position equal to its rest position, and any
    number of such passes after the first capture reproduces the original
    live positions exactly. *)
Theorem zero_signal_is_identity (m : Mesh) (frames : list AnalysisFrame) :
  wellFormed m ->
  Forall (fun frame => zeroSignal (timeDomainData frame)) frames ->
  (forall frame, zeroSignal (timeDomainData frame) ->
     position (animateShape frame m) = restPose m) /\
  (frames <> [] -> position (animateAll frames m) = restPose m) /\
  (originalPositions m = None -> position (animateAll frames m) = position m).
Proof.
  intros Hwf Hall. split; [| split].
  - intros frame Hzero. by apply zero_signal_pass.
  - destruct frames as [| frame frames]; [done | intros _].
    apply Forall_cons in Hall as [Hzero Hall].
    change (position (animateAll frames (animateShape frame m)) = restPose m).
    rewrite <- (animateShape_restPose frame m).
    apply zero_signal_passes.
    + by apply animateShape_wellFormed.
    + exact Hall.
    + rewrite animateShape_restPose. by apply zero_signal_pass.
  - intros Hfresh.
    assert (restPose m = position m) as Hrest
      by (unfold restPose; by rewrite Hfresh).
    rewrite <- Hrest. apply zero_signal_passes; done.
Qed.

(** C3: the rest pose is captured by the first pass, from the live
    positions as they were before any deformation; every later pass keeps
    that cache and computes from it, so its result is the one a first pass
    on the untouched mesh would give. *)
Theorem rest_pose_captured_once (m : Mesh) (frame : AnalysisFrame)
    (frames : list AnalysisFrame) :
  originalPositions m = None ->
  originalPositions (animateShape frame m) = Some (position m) /\
  originalPositions (animateAll frames (animateShape frame m)) = Some (position m) /\
  (forall frame',
     originalPositions
       (animateShape frame' (animateAll frames (animateShape frame m)))
       = Some (position m) /\
     position (animateShape frame' (animateAll frames (animateShape frame m)))
       = deformLoop (position m) (timeDomainData frame') (count m)
           (position (animateAll frames (animateShape frame m))) /\
     position (animateShape frame' (animateAll frames (animateShape frame m)))
       = position (animateShape frame' m)).
Proof.
  intros Hfresh.
  assert (originalPositions (animateShape frame m) = Some (position m)) as H1.
  { unfold animateShape, restPose. cbn. by rewrite Hfresh. }
  assert (forall fs mk, originalPositions mk = Some (position m) ->
            originalPositions (animateAll fs mk) = Some (position m)) as Hkeep.
  { induction fs as [| f fs IH]; intros mk Hmk; [exact Hmk |].
    apply IH. by apply animateShape_keeps_cache. }
  pose proof (evolvedFrom_all frames m _
                (evolvedFrom_step frame m m (evolvedFrom_refl m))) as Hev.
  split; [exact H1 | split; [by apply Hkeep |]].
  intros frame'. split; [| split].
  - apply animateShape_keeps_cache. by apply Hkeep.
  - destruct Hev as (_ & Hcount & Hrest & _).
    unfold animateShape at 1. cbn [position].
    rewrite Hrest, Hcount. unfold restPose at 1. by rewrite Hfresh.
  - by apply animateShape_forgets_history.
Qed.

(** ** What a pass writes *)

(** Every slot of a vertex within the array receives the rest value times
    the factor of that vertex. *)
Lemma vertex_slot_written frame m i k :
  i < count m -> k < 3 -> i * 3 + k < length (position m) ->
  position (animateShape frame m) !! (i * 3 + k) =
    Some (JS.mul (f32At (restPose m) (i * 3 + k))
            (waveFactor (timeDomainData frame) i)).
Proof.
  intros Hi Hk Hlen. rewrite animateShape_lookup.
  case_decide as Hj; [| lia].
  assert ((i * 3 + k) / 3 = i) as ->
    by (symmetry; apply Nat.div_unique with (r := k); lia).
  done.
Qed.

(** C7: for any vertex count and any non-empty sample array, vertex [i]
    reads the sample at [i mod B], which exists; all three slots of every
    vertex are written from it; the array keeps its length; and the samples
    at the other indices have no influence on the result. *)
Theorem modulo_wrap_covers_every_vertex (frame : AnalysisFrame) (m : Mesh) :
  timeDomainData frame <> [] ->
  length (position m) = count m * 3 ->
  (forall i, i < count m ->
     i mod length (timeDomainData frame) < length (timeDomainData frame) /\
     exists b,
       timeDomainData frame !! (i mod length (timeDomainData frame)) = Some b /\
       forall k, k < 3 ->
         position (animateShape frame m) !! (i * 3 + k) =
           Some (JS.mul (f32At (restPose m) (i * 3 + k))
                   (JS.fin (1 + (JS.of_byte b / 128 - 1) * 0.035)))) /\
  length (position (animateShape frame m)) = count m * 3 /\
  (forall frame',
     length (timeDomainData frame') = length (timeDomainData frame) ->
     (forall i, i < count m ->
        timeDomainData frame' !! (i mod length (timeDomainData frame)) =
        timeDomainData frame !! (i mod length (timeDomainData frame))) ->
     position (animateShape frame' m) = position (animateShape frame m)).
Proof.
  intros Hne Hlen. split; [| split].
  - intros i Hi.
    destruct (sample_in_range (timeDomainData frame) i Hne) as [Hlt [b Hb]].
    split; [exact Hlt |]. exists b. split; [exact Hb |].
    intros k Hk.
    rewrite vertex_slot_written by lia.
    by rewrite (waveFactor_sample _ _ _ Hb).
  - by rewrite animateShape_length.
  - intros frame' HB Hagree.
    apply list_eq. intros j. rewrite !animateShape_lookup.
    case_decide as Hj; [| done].
    assert (j / 3 < count m) as Hv
      by (apply Nat.Div0.div_lt_upper_bound; lia).
    unfold waveFactor, timeDomainValue, u8At.
    rewrite HB, (Hagree _ Hv). done.
Qed.

(** ** Scale and colour from the frequency bins *)

Lemma reduce_sum bins a :
  fold_left (fun a b => JS.add a (JS.fin (JS.of_byte b))) bins (JS.fin a)
  = JS.fin (a + sumBytes bins).
Proof.
  revert a. induction bins as [| b bins IH]; intros a; cbn [fold_left].
  - unfold sumBytes, JS.fin. cbn [foldr]. f_equal. lra.
  - rewrite add_fin, IH. unfold sumBytes, JS.fin. cbn [foldr]. f_equal. lra.
Qed.

Lemma reduce_sum_squares bins a :
  fold_left
    (fun sum value =>
       JS.add sum (JS.mul (JS.fin (JS.of_byte value)) (JS.fin (JS.of_byte value))))
    bins (JS.fin a)
  = JS.fin (a + sumSquares bins).
Proof.
  revert a. induction bins as [| b bins IH]; intros a; cbn [fold_left].
  - unfold sumSquares, JS.fin. cbn [foldr]. f_equal. lra.
  - rewrite mul_fin, add_fin, IH.
    unfold sumSquares, JS.fin. cbn [foldr]. f_equal. lra.
Qed.

Lemma length_pos_INR {A} (l : list A) : l <> [] -> (0 < INR (length l))%R.
Proof.
  intros Hne. apply lt_0_INR. destruct l; [done | simpl; lia].
Qed.

Lemma sumSquares_nonneg bins : (0 <= sumSquares bins)%R.
Proof.
  induction bins as [| b bins IH]; simpl; [lra |].
  pose proof (of_byte_range b). nra.
Qed.


Lemma sumSquares_constant bins V :
  Forall (fun b => b = V) bins ->
  sumSquares bins = (INR (length bins) * (JS.of_byte V * JS.of_byte V))%R.
Proof.
  induction 1 as [| b bins -> _ IH].
  - simpl. lra.
  - cbn [sumSquares foldr length]. fold (sumSquares bins).
    rewrite IH, S_INR. lra.
Qed.

(** The source's fold and division compute the arithmetic mean. *)
Lemma averageFrequency_mean bins :
  bins <> [] -> averageFrequency bins = JS.fin (arithmeticMean bins).
Proof.
  intros Hne. pose proof (length_pos_INR bins Hne) as Hlen.
  unfold averageFrequency, JS.of_nat. rewrite reduce_sum.
  rewrite div_fin by lra.
  unfold arithmeticMean, JS.fin. f_equal. f_equal. lra.
Qed.

(** The source's fold, division and square root compute the root mean
    square. *)
Lemma volumeOf_rms bins :
  bins <> [] -> volumeOf bins = JS.fin (rootMeanSquare bins).
Proof.
  intros Hne. pose proof (length_pos_INR bins Hne) as Hlen.
  unfold volumeOf, JS.of_nat. rewrite reduce_sum_squares.
  rewrite div_fin by lra.
  rewrite sqrt_fin.
  - unfold rootMeanSquare, JS.fin. do 3 f_equal. lra.
  - apply Rmult_le_pos.
    + pose proof (sumSquares_nonneg bins). lra.
    + left. by apply Rinv_0_lt_compat.
Qed.


Lemma rootMeanSquare_constant bins V :
  bins <> [] -> Forall (fun b => b = V) bins ->
  rootMeanSquare bins = JS.of_byte V.
Proof.
  intros Hne Hall. pose proof (length_pos_INR bins Hne) as Hlen.
  unfold rootMeanSquare. rewrite (sumSquares_constant bins V Hall).
  replace (INR (length bins) * (JS.of_byte V * JS.of_byte V) / INR (length bins))%R
    with (JS.of_byte V * JS.of_byte V)%R by (field; lra).
  apply sqrt_square. apply of_byte_range.
Qed.

(** C5: a pass sets the colour from hue = rms / 255, saturation 1 and
    lightness 0.5, the rms being the root mean square of the bins; the
    colour depends on the bins alone; bins all 0 give hue 0 and bins all
    255 give hue 1. *)
Theorem color_is_hsl_of_rms (frame : AnalysisFrame) (m : Mesh) :
  frequencyData frame <> [] ->
  color (animateShape frame m)
    = ColorHSL (JS.fin (rootMeanSquare (frequencyData frame) / 255))
        (JS.fin 1) (JS.fin 0.5) /\
  (forall frame' m',
     frequencyData frame' = frequencyData frame ->
     color (animateShape frame' m') = color (animateShape frame m)) /\
  (Forall (fun b => b = x00) (frequencyData frame) ->
     color (animateShape frame m) = ColorHSL (JS.fin 0) (JS.fin 1) (JS.fin 0.5)) /\
  (Forall (fun b => b = xff) (frequencyData frame) ->
     color (animateShape frame m) = ColorHSL (JS.fin 1) (JS.fin 1) (JS.fin 0.5)).
Proof.
  intros Hne.
  assert (color (animateShape frame m)
            = ColorHSL (JS.fin (rootMeanSquare (frequencyData frame) / 255))
                (JS.fin 1) (JS.fin 0.5)) as Hcolor.
  { unfold animateShape, getColorFromVolume. cbn [color].
    rewrite volumeOf_rms by done. by rewrite div_fin by lra. }
  split; [exact Hcolor |]. split; [| split].
  - intros frame' m' Hsame. unfold animateShape. cbn [color]. by rewrite Hsame.
  - intros Hall. rewrite Hcolor, (rootMeanSquare_constant _ x00 Hne Hall).
    unfold JS.fin, JS.of_byte. do 2 f_equal. simpl. lra.
  - intros Hall. rewrite Hcolor, (rootMeanSquare_constant _ xff Hne Hall).
    unfold JS.fin, JS.of_byte. do 2 f_equal. simpl. lra.
Qed.

(** ** The analyser's arrays *)

Lemma fillFrom_length src dst : length (fillFrom src dst) = length dst.
Proof.
  unfold fillFrom. rewrite length_app, length_take, length_drop. lia.
Qed.

Lemma sampleFrame_lengths a raw :
  length (frequencyData (sampleFrame a raw)) = frequencyBinCount a /\
  length (timeDomainData (sampleFrame a raw)) = frequencyBinCount a.
Proof.
  unfold sampleFrame, newUint8. cbn [frequencyData timeDomainData].
  by rewrite !fillFrom_length, !length_replicate.
Qed.

(** ** Invariants of the page *)

Section PageFacts.

Variable sphereVertices : list (R * R * R).

Abbreviation step := (step sphereVertices).
Abbreviation run := (run sphereVertices).

Lemma run_snoc events e : run (events ++ [e]) = step (run events) e.
Proof. unfold run. by rewrite fold_left_app. Qed.

Lemma run_app events events' :
  run (events ++ events') = fold_left step events' (run events).
Proof. unfold run. by rewrite fold_left_app. Qed.

(** A property kept by every step holds after every run. *)
Lemma run_invariant (P : Session -> Prop) :
  P initialSession ->
  (forall s e, P s -> P (step s e)) ->
  forall events, P (run events).
Proof.
  intros Hinit Hstep events.
  induction events as [| e events IH] using rev_ind; [exact Hinit |].
  rewrite run_snoc. by apply Hstep.
Qed.

Lemma initAudio_analyser s :
  analyser (initAudio s) =
    match analyser s with
    | Some a => Some a
    | None => Some {| fftSize := 8192 |}
    end.
Proof. unfold initAudio. by destruct (analyser s) eqn:E. Qed.

Lemma animate_analyser raw s : analyser (animate raw s) = analyser s.
Proof. unfold animate. by destruct (analyser s), (shape s). Qed.

(** Once created, the analyser is never replaced nor reconfigured. *)
Lemma step_keeps_analyser s e a :
  analyser s = Some a -> analyser (step s e) = Some a.
Proof.
  intros Ha. destruct e as [[f |] raw | | | | | raw]; cbn.
  - rewrite animate_analyser. cbn. by rewrite initAudio_analyser, Ha.
  - by rewrite initAudio_analyser, Ha.
  - by destruct (readsInFlight s).
  - by destruct (readsInFlight s).
  - by destruct (decodesInFlight s).
  - by destruct (decodesInFlight s).
  - destruct (rafPending s); [done |].
    unfold onAnimationFrame. by rewrite animate_analyser.
Qed.

Lemma steps_keep_analyser events s a :
  analyser s = Some a -> analyser (fold_left step events s) = Some a.
Proof.
  revert s. induction events as [| e events IH]; intros s Ha; [exact Ha |].
  apply IH. by apply step_keeps_analyser.
Qed.

(** The only analyser the page ever has is the one of the first click. *)
Lemma analyser_configuration events a :
  analyser (run events) = Some a -> a = {| fftSize := 8192 |}.
Proof.
  revert a.
  apply (run_invariant
           (fun s => forall a, analyser s = Some a -> a = {| fftSize := 8192 |}));
    [done |].
  intros s e IH a.
  destruct (analyser s) as [a0 |] eqn:Ha0.
  - rewrite (step_keeps_analyser s e a0 Ha0). intros [= <-]. by apply IH.
  - destruct e as [[f |] raw | | | | | raw]; cbn.
    + rewrite animate_analyser. cbn. rewrite initAudio_analyser, Ha0. congruence.
    + rewrite initAudio_analyser, Ha0. congruence.
    + destruct (readsInFlight s); cbn; congruence.
    + destruct (readsInFlight s); cbn; congruence.
    + destruct (decodesInFlight s); cbn; congruence.
    + destruct (decodesInFlight s); cbn; congruence.
    + destruct (rafPending s); [congruence |].
      unfold onAnimationFrame. rewrite animate_analyser. cbn. congruence.
Qed.

(** C9: whatever has happened on the page, its analyser has FFT size
    8192 and bin count 8192 / 2 = 4096, later events never change it, and
    both arrays of every frame sampled from it have exactly that many
    elements. *)
Theorem bin_count_is_half_fft_size (events : list Event) (a : Analyser) :
  analyser (run events) = Some a ->
  fftSize a = 8192%Z /\
  Z.of_nat (frequencyBinCount a) = (fftSize a / 2)%Z /\
  frequencyBinCount a = 4096 /\
  (forall events', analyser (run (events ++ events')) = Some a) /\
  (forall raw,
     length (frequencyData (sampleFrame a raw)) = frequencyBinCount a /\
     length (timeDomainData (sampleFrame a raw)) = frequencyBinCount a).
Proof.
  intros Ha. pose proof (analyser_configuration events a Ha) as ->.
  split; [reflexivity |]. split; [reflexivity |]. split; [reflexivity |].
  split.
  - intros events'. rewrite run_app. by apply steps_keep_analyser.
  - intros raw. apply sampleFrame_lengths.
Qed.

Lemma createSphere_wellFormed : wellFormed (createSphere sphereVertices).
Proof.
  unfold wellFormed, restPose, createSphere, slice. cbn.
  split; [| reflexivity].
  induction sphereVertices as [| v vs IH]; [reflexivity |].
  cbn. rewrite IH. lia.
Qed.

(** The shape the page animates is always a sphere of whole vertices whose
    cached rest pose is the geometry [createSphere] built: [animate] runs
    on a new sphere within the click that creates it. *)
Lemma shape_rest_pose_is_sphere events m :
  shape (run events) = Some m ->
  wellFormed m /\
  originalPositions m = Some (position (createSphere sphereVertices)).
Proof.
  revert m.
  apply (run_invariant
           (fun s => forall m, shape s = Some m ->
              wellFormed m /\
              originalPositions m = Some (position (createSphere sphereVertices))));
    [done |].
  intros s e IH m.
  destruct e as [[f |] raw | | | | | raw]; cbn.
  - unfold animate. cbn. rewrite initAudio_analyser.
    destruct (analyser s); cbn; intros [= <-];
      (split; [apply animateShape_wellFormed, createSphere_wellFormed | done]).
  - unfold initAudio. destruct (analyser s); cbn; apply IH.
  - destruct (readsInFlight s); cbn; apply IH.
  - destruct (readsInFlight s); cbn; apply IH.
  - destruct (decodesInFlight s); cbn; apply IH.
  - destruct (decodesInFlight s); cbn; apply IH.
  - destruct (rafPending s); [apply IH |].
    unfold onAnimationFrame, animate. cbn.
    destruct (shape s) as [m0 |] eqn:Hshape;
      [| destruct (analyser s); cbn; done].
    destruct (IH m0 eq_refl) as [Hwf Hcache].
    destruct (analyser s) as [a |]; cbn; intros [= <-].
    + split; [by apply animateShape_wellFormed |].
      by apply animateShape_keeps_cache.
    + done.
Qed.

(** While a file is being read or decoded the tick loop is already
    scheduled and has already drawn: the click handler calls [animate]
    itself, right after [readFile]. *)
Lemma loading_implies_running events :
  let s := run events in
  readsInFlight s + decodesInFlight s <> 0 ->
  rafPending s <> 0 /\ draws s <> 0.
Proof.
  apply (run_invariant
           (fun s => readsInFlight s + decodesInFlight s <> 0 ->
                     rafPending s <> 0 /\ draws s <> 0)); [cbn; lia |].
  intros s e IH.
  destruct e as [[f |] raw | | | | | raw]; cbn.
  - unfold animate. cbn. rewrite initAudio_analyser.
    destruct (analyser s); cbn; lia.
  - unfold initAudio. destruct (analyser s); cbn; exact IH.
  - destruct (readsInFlight s) eqn:E; cbn; lia.
  - destruct (readsInFlight s) eqn:E; cbn; lia.
  - destruct (decodesInFlight s) eqn:E; cbn; lia.
  - destruct (decodesInFlight s) eqn:E; cbn; lia.
  - destruct (rafPending s) eqn:E; [lia |].
    unfold onAnimationFrame, animate. cbn.
    destruct (analyser s), (shape s); cbn; lia.
Qed.

(** C1, amended: when a decode in flight is rejected, one console error
    is logged and the user is shown nothing; no read or decode is started
    again and no source is started; the scheduler, Running since the
    click, stays as it is, as do the draw count and the shape. *)
Theorem decode_failure_is_only_logged (events : list Event) :
  decodesInFlight (run events) <> 0 ->
  let s := run events in
  let s' := step s DecodeReject in
  console s' = console s ++ ["Error decoding audio data:"%string] /\
  alerts s' = alerts s /\
  readsInFlight s' = readsInFlight s /\
  decodesInFlight s' = pred (decodesInFlight s) /\
  sourcesStarted s' = sourcesStarted s /\
  scheduler s = Running /\ draws s <> 0 /\
  rafPending s' = rafPending s /\
  draws s' = draws s /\
  shape s' = shape s.
Proof.
  intros Hdec s s'.
  assert (rafPending s <> 0 /\ draws s <> 0) as [Hraf Hdraws]
    by (apply loading_implies_running; lia).
  change (decodesInFlight s <> 0) in Hdec.
  subst s'. cbn.
  destruct (decodesInFlight s) eqn:E; [done |]. cbn. rewrite E.
  repeat split; try done.
  unfold scheduler. destruct (rafPending s); [done | reflexivity].
Qed.

(** A page on which no file was ever submitted has nothing in flight,
    nothing scheduled and nothing drawn. *)
Lemma no_file_stays_idle events :
  Forall (fun e => clicksWithFile e = false) events ->
  let s := run events in
  readsInFlight s = 0 /\ decodesInFlight s = 0 /\
  rafPending s = 0 /\ draws s = 0 /\ shape s = None.
Proof.
  induction events as [| e events IH] using rev_ind; intros Hall; [done |].
  apply Forall_app in Hall as [Hall He].
  apply Forall_cons in He as [He _].
  destruct (IH Hall) as (Hr & Hd & Hraf & Hdraws & Hshape).
  rewrite run_snoc.
  destruct e as [[f |] raw | | | | | raw]; try discriminate; cbn.
  - unfold initAudio. by destruct (analyser (run events)).
  - by rewrite Hr.
  - by rewrite Hr.
  - by rewrite Hd.
  - by rewrite Hd.
  - by rewrite Hraf.
Qed.

(** C8: as long as no file has been chosen, a click on the play button
    shows the alert within the handler and changes nothing else that the
    page has asked of the browser: the scheduler is Idle before and
    after, and nothing has been or gets drawn, read or decoded. *)
Theorem missing_input_keeps_idle (events : list Event) (raw : AnalysisFrame) :
  Forall (fun e => clicksWithFile e = false) events ->
  let s := run events in
  let s' := step s (Click None raw) in
  scheduler s = Idle /\ draws s = 0 /\
  alerts s' = alerts s ++ ["Please upload an audio file first."%string] /\
  scheduler s' = Idle /\ draws s' = 0 /\
  shape s' = None /\
  readsInFlight s' = 0 /\ decodesInFlight s' = 0 /\
  console s' = console s /\
  (forall s0,
     rafPending (step s0 (Click None raw)) = rafPending s0 /\
     draws (step s0 (Click None raw)) = draws s0).
Proof.
  intros Hall s s'.
  assert (readsInFlight s = 0 /\ decodesInFlight s = 0 /\
          rafPending s = 0 /\ draws s = 0 /\ shape s = None)
    as (Hr & Hd & Hraf & Hdraws & Hshape)
    by (by apply no_file_stays_idle).
  assert (scheduler s = Idle) as Hidle by (unfold scheduler; by rewrite Hraf).
  assert (forall s0,
            rafPending (step s0 (Click None raw)) = rafPending s0 /\
            draws (step s0 (Click None raw)) = draws s0) as Hany
    by (intros s0; cbn; unfold initAudio; by destruct (analyser s0)).
  subst s'. cbn. unfold initAudio, scheduler.
  do 9 (split; [destruct (analyser s); cbn; rewrite ?Hraf; done |]).
  exact Hany.
Qed.

End PageFacts.

(** ** The claims on sample data *)

(** C1 as stated fails: a click with a file, the file read, the decode
    rejected; the error is logged, yet the scheduler is Running and a frame
    has been drawn. *)
Lemma decode_failure_after_start :
  let s :=
    run [(1, 0, 0)%R]
      [Click (Some [x00]) silentFrame; ReaderLoad; DecodeReject] in
  console s = ["Error decoding audio data:"%string] /\
  scheduler s = Running /\
  draws s = 1.
Proof. cbn. repeat split. Qed.

Lemma decode_failure_is_only_logged_witness :
  let events := [Click (Some [x00]) silentFrame; ReaderLoad] in
  let s := run [(1, 0, 0)%R] events in
  let s' := step [(1, 0, 0)%R] s DecodeReject in
  decodesInFlight s <> 0 /\
  console s' = console s ++ ["Error decoding audio data:"%string] /\
  alerts s' = alerts s /\
  readsInFlight s' = readsInFlight s /\
  decodesInFlight s' = pred (decodesInFlight s) /\
  sourcesStarted s' = sourcesStarted s /\
  scheduler s = Running /\ draws s <> 0 /\
  rafPending s' = rafPending s /\
  draws s' = draws s /\
  shape s' = shape s.
Proof.
  intros events s s'.
  assert (decodesInFlight s <> 0) as Hdec by (cbn; lia).
  split; [exact Hdec |].
  exact (decode_failure_is_only_logged [(1, 0, 0)%R] events Hdec).
Defined.

Lemma zero_signal_is_identity_witness :
  wellFormed oneVertex /\
  Forall (fun frame => zeroSignal (timeDomainData frame))
    [silentFrame; silentFrame] /\
  position (animateAll [silentFrame; silentFrame] oneVertex)
    = position oneVertex.
Proof.
  assert (wellFormed oneVertex) as Hwf by (split; reflexivity).
  assert (zeroSignal (timeDomainData silentFrame)) as Hzero
    by (split; [discriminate | repeat constructor]).
  assert (Forall (fun frame => zeroSignal (timeDomainData frame))
            [silentFrame; silentFrame]) as Hall
    by (constructor; [exact Hzero | constructor; [exact Hzero | constructor]]).
  split; [exact Hwf |]. split; [exact Hall |].
  exact (proj2 (proj2 (zero_signal_is_identity oneVertex _ Hwf Hall)) eq_refl).
Defined.

Lemma rest_pose_captured_once_witness :
  originalPositions oneVertex = None /\
  originalPositions (animateAll [silentFrame] (animateShape loudFrame oneVertex))
    = Some (position oneVertex).
Proof.
  split; [reflexivity |].
  exact (proj1 (proj2
           (rest_pose_captured_once oneVertex loudFrame [silentFrame] eq_refl))).
Defined.

Lemma color_is_hsl_of_rms_witness :
  frequencyData loudFrame <> [] /\
  color (animateShape loudFrame oneVertex)
    = ColorHSL (JS.fin 1) (JS.fin 1) (JS.fin 0.5).
Proof.
  assert (frequencyData loudFrame <> []) as Hne by discriminate.
  split; [exact Hne |].
  apply (color_is_hsl_of_rms loudFrame oneVertex Hne).
  repeat constructor.
Defined.

Lemma modulo_wrap_covers_every_vertex_witness :
  timeDomainData mixedFrame <> [] /\
  length (position twoVertices) = count twoVertices * 3 /\
  length (position (animateShape mixedFrame twoVertices))
    = count twoVertices * 3.
Proof.
  assert (timeDomainData mixedFrame <> []) as Hne by discriminate.
  assert (length (position twoVertices) = count twoVertices * 3) as Hlen
    by reflexivity.
  split; [exact Hne |]. split; [exact Hlen |].
  exact (proj1 (proj2
           (modulo_wrap_covers_every_vertex mixedFrame twoVertices Hne Hlen))).
Defined.

(** C10 as stated fails at the sample 255: the factor is 1.0347265625,
    above the claimed upper bound 1.0346875. *)
Lemma waveFactor_above_claimed_bound :
  waveFactor [xff] 0 = JS.fin 1.0347265625 /\ (1.0346875 < 1.0347265625)%R.
Proof.
  split; [| lra].
  rewrite (waveFactor_sample [xff] 0 xff) by reflexivity.
  unfold JS.fin, JS.of_byte, waveformScaleFactor. f_equal. simpl. lra.
Qed.

Lemma bin_count_is_half_fft_size_witness :
  analyser (run [(1, 0, 0)%R] [Click None silentFrame])
    = Some {| fftSize := 8192 |} /\
  frequencyBinCount {| fftSize := 8192 |} = 4096.
Proof.
  assert (analyser (run [(1, 0, 0)%R] [Click None silentFrame])
            = Some {| fftSize := 8192 |}) as Ha by reflexivity.
  split; [exact Ha |].
  exact (proj1 (proj2 (proj2
           (bin_count_is_half_fft_size [(1, 0, 0)%R] _ _ Ha)))).
Defined.

Lemma missing_input_keeps_idle_witness :
  let events := [Click None silentFrame; AnimationFrame loudFrame; DecodeReject] in
  let s := run [(1, 0, 0)%R] events in
  let s' := step [(1, 0, 0)%R] s (Click None silentFrame) in
  Forall (fun e => clicksWithFile e = false) events /\
  scheduler s = Idle /\ draws s = 0 /\
  alerts s' = alerts s ++ ["Please upload an audio file first."%string] /\
  scheduler s' = Idle /\ draws s' = 0 /\
  shape s' = None /\
  readsInFlight s' = 0 /\ decodesInFlight s' = 0 /\
  console s' = console s /\
  (forall s0,
     rafPending (step [(1, 0, 0)%R] s0 (Click None silentFrame)) = rafPending s0 /\
     draws (step [(1, 0, 0)%R] s0 (Click None silentFrame)) = draws s0).
Proof.
  intros events s s'.
  assert (Forall (fun e => clicksWithFile e = false) events) as Hall
    by (repeat constructor).
  split; [exact Hall |].
  exact (missing_input_keeps_idle [(1, 0, 0)%R] events silentFrame Hall).
Defined.

(** ** Further properties of a pass *)

(** A pass after any number of earlier passes gives the mesh a single pass
    would give. *)
Lemma animateShape_after_passes frame frames m :
  animateShape frame (animateAll frames m) = animateShape frame m.
Proof.
  pose proof (evolvedFrom_all frames m m (evolvedFrom_refl m)) as Hev.
  pose proof (animateShape_forgets_history frame m _ Hev) as Hpos.
  destruct Hev as (_ & Hcount & Hrest & _).
  unfold animateShape in *. cbn [position] in Hpos.
  rewrite Hpos, Hcount, Hrest. reflexivity.
Qed.

(** X1: [animate] keeps no history. The mesh after a pass depends on the
    rest pose and on that pass's frame only: earlier frames leave no trace,
    and repeating a frame changes nothing. *)
Theorem animate_is_memoryless (frame : AnalysisFrame)
    (frames : list AnalysisFrame) (m : Mesh) :
  animateShape frame (animateAll frames m) = animateShape frame m /\
  animateShape frame (animateShape frame m) = animateShape frame m /\
  animateAll (frames ++ [frame]) m = animateShape frame m.
Proof.
  split; [apply animateShape_after_passes |]. split.
  - apply (animateShape_after_passes frame [frame] m).
  - unfold animateAll. rewrite fold_left_app. cbn [fold_left].
    apply animateShape_after_passes.
Qed.

(** X2: whatever the frames, the vertex array keeps its length, the vertex
    count stays, and the slots beyond the last vertex are never written. *)
Theorem animate_keeps_array_shape (frames : list AnalysisFrame) (m : Mesh) :
  length (position (animateAll frames m)) = length (position m) /\
  count (animateAll frames m) = count m /\
  forall j, count m * 3 <= j ->
    position (animateAll frames m) !! j = position m !! j.
Proof.
  destruct (evolvedFrom_all frames m m (evolvedFrom_refl m))
    as (Hlen & Hcount & _ & Htail).
  by repeat split.
Qed.

Lemma sumBytes_bounds bins :
  (0 <= sumBytes bins <= 255 * INR (length bins))%R.
Proof.
  induction bins as [| b bins IH].
  - cbn. lra.
  - cbn [sumBytes foldr length]. fold (sumBytes bins). rewrite S_INR.
    pose proof (of_byte_range b). lra.
Qed.

Lemma sumSquares_upper bins :
  (sumSquares bins <= 255 * 255 * INR (length bins))%R.
Proof.
  induction bins as [| b bins IH].
  - cbn. lra.
  - cbn [sumSquares foldr length]. fold (sumSquares bins). rewrite S_INR.
    pose proof (of_byte_range b). nra.
Qed.

Lemma quotient_bounds (a n hi : R) :
  (0 < n)%R -> (0 <= a <= hi * n)%R -> (0 <= a / n <= hi)%R.
Proof.
  intros Hn [Hlo Hhi].
  pose proof (Rinv_0_lt_compat n Hn) as Hinv.
  assert (a / n = a * / n)%R as -> by reflexivity.
  assert (hi = hi * n * / n)%R as Hhi' by (field; lra).
  split; [nra |]. rewrite Hhi'. apply Rmult_le_compat_r; lra.
Qed.

(** X3: for a non-empty bin array the uniform scale factor that a pass
    stores is a number between 1 and 4.825. *)
Theorem scale_stays_in_range (frame : AnalysisFrame) (m : Mesh) :
  frequencyData frame <> [] ->
  exists r : R,
    scale (animateShape frame m) = JS.fin r /\ (1 <= r <= 4.825)%R.
Proof.
  intros Hne. pose proof (length_pos_INR _ Hne) as Hlen.
  exists (1 + arithmeticMean (frequencyData frame) * radiusScaleFactor)%R.
  split.
  - unfold animateShape. cbn [scale].
    rewrite averageFrequency_mean by done. by rewrite mul_fin, add_fin.
  - pose proof (quotient_bounds _ _ 255 Hlen (sumBytes_bounds (frequencyData frame)))
      as Hmean.
    fold (arithmeticMean (frequencyData frame)) in Hmean.
    unfold radiusScaleFactor. lra.
Qed.

(** X4: for a non-empty bin array the colour is set from a hue between 0
    and 1, with saturation 1 and lightness 0.5. *)
Theorem hue_stays_in_range (frame : AnalysisFrame) (m : Mesh) :
  frequencyData frame <> [] ->
  exists h : R,
    color (animateShape frame m) = ColorHSL (JS.fin h) (JS.fin 1) (JS.fin 0.5) /\
    (0 <= h <= 1)%R.
Proof.
  intros Hne. pose proof (length_pos_INR _ Hne) as Hlen.
  exists (rootMeanSquare (frequencyData frame) / 255)%R.
  split.
  - unfold animateShape, getColorFromVolume. cbn [color].
    rewrite volumeOf_rms by done. by rewrite div_fin by lra.
  - assert (0 <= sumSquares (frequencyData frame) / INR (length (frequencyData frame))
              <= 255 * 255)%R as [Hlo Hhi].
    { apply quotient_bounds; [exact Hlen |].
      split; [apply sumSquares_nonneg | apply sumSquares_upper]. }
    assert (0 <= rootMeanSquare (frequencyData frame) <= 255)%R as [Hr0 Hr255].
    { unfold rootMeanSquare. split; [apply sqrt_pos |].
      rewrite <- (sqrt_square 255) by lra.
      apply sqrt_le_1; lra. }
    lra.
Qed.

(** ** Further properties of the factor *)


(** X6: the samples are used cyclically. Vertex [i] below the sample count
    uses sample [i] itself, and vertex [i + B] gets the factor of vertex
    [i], B being the number of samples. *)
Theorem samples_wrap_around (timeDomainData : list byte) (i : nat) :
  timeDomainData <> [] ->
  waveFactor timeDomainData (i + length timeDomainData)
    = waveFactor timeDomainData i /\
  (i < length timeDomainData ->
   exists b,
     timeDomainData !! i = Some b /\
     waveFactor timeDomainData i
       = JS.fin (1 + (JS.of_byte b / 128 - 1) * 0.035)).
Proof.
  intros Hne. split.
  - unfold waveFactor, timeDomainValue.
    replace (i + length timeDomainData) with (i + 1 * length timeDomainData) by lia.
    by rewrite Nat.Div0.mod_add.
  - intros Hi.
    destruct (lookup_lt_is_Some_2 timeDomainData i Hi) as [b Hb].
    exists b. split; [exact Hb |].
    apply waveFactor_sample. by rewrite Nat.mod_small.
Qed.


(** X8: with no samples and no bins at all, a pass turns the scale, the hue
    and every vertex slot into NaN, yet stores the rest pose intact, so the
    next pass gives exactly what it would have given without the empty one. *)
Theorem empty_frame_gives_NaN (m : Mesh) :
  let m' := animateShape (mkFrame [] []) m in
  scale m' = JS.NaN /\
  color m' = ColorHSL JS.NaN (JS.fin 1) (JS.fin 0.5) /\
  (forall j, j < count m * 3 -> j < length (position m) ->
     position m' !! j = Some JS.NaN) /\
  originalPositions m' = Some (restPose m) /\
  forall frame, animateShape frame m' = animateShape frame m.
Proof.
  assert (JS.div (JS.fin 0) (JS.of_nat 0) = JS.NaN) as Hdiv.
  { unfold JS.div, JS.of_nat, JS.fin. cbn [INR].
    destruct (Req_dec_T 0 0); [reflexivity | lra]. }
  cbn zeta. split; [| split; [| split; [| split]]].
  - unfold animateShape, averageFrequency. cbn [scale frequencyData fold_left length].
    by rewrite Hdiv.
  - unfold animateShape, getColorFromVolume, volumeOf.
    cbn [color frequencyData fold_left length]. by rewrite Hdiv.
  - intros j Hj Hlen. rewrite animateShape_lookup.
    case_decide as Hdec; [| lia].
    unfold waveFactor, timeDomainValue, u8At. cbn [timeDomainData].
    rewrite lookup_nil. f_equal. by destruct (f32At (restPose m) j).
  - reflexivity.
  - intros frame. apply (animateShape_after_passes frame [mkFrame [] []] m).
Qed.

(** ** Further invariants of the page *)

Lemma countEvents_snoc p events e :
  countEvents p (events ++ [e])
    = countEvents p events + (if p e then 1 else 0).
Proof.
  unfold countEvents. rewrite List.filter_app, length_app. cbn.
  by destruct (p e).
Qed.

Section PageBehaviour.

Variable sphereVertices : list (R * R * R).

Abbreviation step := (step sphereVertices).
Abbreviation run := (run sphereVertices).

Lemma step_monotone s e :
  rafPending s <= rafPending (step s e) /\ draws s <= draws (step s e).
Proof.
  destruct e as [[f |] raw | | | | | raw]; cbn.
  - unfold animate. cbn. rewrite initAudio_analyser.
    unfold initAudio. destruct (analyser s); cbn; lia.
  - unfold initAudio. destruct (analyser s); cbn; lia.
  - destruct (readsInFlight s); cbn; lia.
  - destruct (readsInFlight s); cbn; lia.
  - destruct (decodesInFlight s); cbn; lia.
  - destruct (decodesInFlight s); cbn; lia.
  - destruct (rafPending s) eqn:E; [lia |].
    unfold onAnimationFrame, animate. cbn.
    destruct (analyser s), (shape s); cbn; rewrite ?E; cbn; lia.
Qed.

Lemma steps_monotone events s :
  rafPending s <= rafPending (fold_left step events s) /\
  draws s <= draws (fold_left step events s).
Proof.
  revert s. induction events as [| e events IH]; intros s; [cbn; lia |].
  cbn [fold_left].
  pose proof (step_monotone s e). pose proof (IH (step s e)). lia.
Qed.

(** X9: the tick loop never stops. Once the scheduler is Running it is
    Running after every further event, and the number of frames drawn
    never goes down. *)
Theorem running_is_forever (events events' : list Event) :
  scheduler (run events) = Running ->
  scheduler (run (events ++ events')) = Running /\
  draws (run events) <= draws (run (events ++ events')).
Proof.
  intros Hrun. rewrite run_app.
  pose proof (steps_monotone events' (run events)) as [Hraf Hdraws].
  split; [| exact Hdraws].
  unfold scheduler in *.
  destruct (rafPending (run events)); [discriminate |].
  destruct (rafPending (fold_left step events' (run events))); [lia | reflexivity].
Qed.

(** X10: every click with a file starts a tick loop of its own and none
    ever ends: the number of scheduled [animate] callbacks is the number of
    such clicks so far. *)
Theorem one_loop_per_file_click (events : list Event) :
  rafPending (run events) = countEvents clicksWithFile events.
Proof.
  induction events as [| e events IH] using rev_ind; [reflexivity |].
  rewrite run_snoc, countEvents_snoc, <- IH.
  destruct e as [[f |] raw | | | | | raw]; cbn.
  - unfold animate. cbn. rewrite initAudio_analyser.
    unfold initAudio. destruct (analyser (run events)); cbn; lia.
  - unfold initAudio. destruct (analyser (run events)); cbn; lia.
  - destruct (readsInFlight (run events)); cbn; lia.
  - destruct (readsInFlight (run events)); cbn; lia.
  - destruct (decodesInFlight (run events)); cbn; lia.
  - destruct (decodesInFlight (run events)); cbn; lia.
  - destruct (rafPending (run events)) eqn:E; [lia |].
    unfold onAnimationFrame, animate. cbn.
    destruct (analyser (run events)), (shape (run events)); cbn; rewrite ?E; cbn; lia.
Qed.

(** X11: no submitted file is lost or counted twice. Each click with a
    file is, at any later moment, accounted for exactly once: as a read in
    flight, a decode in flight, a started source or a logged error. *)
Theorem every_file_is_accounted_for (events : list Event) :
  readsInFlight (run events) + decodesInFlight (run events)
    + sourcesStarted (run events) + length (console (run events))
  = countEvents clicksWithFile events.
Proof.
  induction events as [| e events IH] using rev_ind; [reflexivity |].
  rewrite run_snoc, countEvents_snoc, <- IH.
  destruct e as [[f |] raw | | | | | raw]; cbn.
  - unfold animate. cbn. rewrite initAudio_analyser.
    unfold initAudio. destruct (analyser (run events)); cbn; lia.
  - unfold initAudio. destruct (analyser (run events)); cbn; lia.
  - destruct (readsInFlight (run events)) eqn:E; cbn; rewrite ?E; lia.
  - destruct (readsInFlight (run events)) eqn:E; cbn; rewrite ?E, ?length_app;
      cbn; lia.
  - destruct (decodesInFlight (run events)) eqn:E; cbn; rewrite ?E; lia.
  - destruct (decodesInFlight (run events)) eqn:E; cbn; rewrite ?E, ?length_app;
      cbn; lia.
  - destruct (rafPending (run events)) eqn:E; [lia |].
    unfold onAnimationFrame, animate. cbn.
    destruct (analyser (run events)), (shape (run events)); cbn; lia.
Qed.

(** Whenever a callback is scheduled, [analyser] and [shape] are set. *)
Lemma scheduled_implies_ready events :
  rafPending (run events) <> 0 ->
  exists a m, analyser (run events) = Some a /\ shape (run events) = Some m.
Proof.
  apply (run_invariant sphereVertices
           (fun s => rafPending s <> 0 ->
              exists a m, analyser s = Some a /\ shape s = Some m));
    [done |].
  intros s e IH.
  destruct e as [[f |] raw | | | | | raw]; cbn.
  - unfold animate. cbn. rewrite initAudio_analyser.
    destruct (analyser s); cbn; eauto.
  - unfold initAudio.
    destruct (analyser s) eqn:Ea; cbn; [by rewrite Ea |].
    intros Hraf. destruct (IH Hraf) as (a & m & Ha & _). congruence.
  - destruct (readsInFlight s); cbn; exact IH.
  - destruct (readsInFlight s); cbn; exact IH.
  - destruct (decodesInFlight s); cbn; exact IH.
  - destruct (decodesInFlight s); cbn; exact IH.
  - destruct (rafPending s) eqn:E; [by rewrite E |].
    destruct IH as (a & m & Ha & Hm); [lia |].
    unfold onAnimationFrame, animate. cbn. rewrite Ha, Hm. cbn. eauto.
Qed.

(** X12: a scheduled callback never finds [analyser] or [shape] unset:
    each animation frame that fires samples the analyser, runs one pass
    over the shape, draws exactly once and leaves one callback scheduled
    in its place. *)
Theorem animation_frame_always_draws (events : list Event) (raw : AnalysisFrame) :
  rafPending (run events) <> 0 ->
  exists a m,
    analyser (run events) = Some a /\
    shape (run events) = Some m /\
    let s' := step (run events) (AnimationFrame raw) in
    shape s' = Some (animateShape (sampleFrame a raw) m) /\
    draws s' = S (draws (run events)) /\
    rafPending s' = rafPending (run events).
Proof.
  intros Hraf.
  destruct (scheduled_implies_ready events Hraf) as (a & m & Ha & Hm).
  exists a, m. split; [exact Ha |]. split; [exact Hm |].
  cbn. destruct (rafPending (run events)) eqn:E; [done |].
  unfold onAnimationFrame, animate. cbn. rewrite Ha, Hm. cbn.
  by rewrite E.
Qed.

(** X13: the alert is shown once for every click without a file and on no
    other occasion. *)
Theorem one_alert_per_empty_click (events : list Event) :
  alerts (run events)
  = replicate (countEvents clicksWithoutFile events)
      "Please upload an audio file first."%string.
Proof.
  induction events as [| e events IH] using rev_ind; [reflexivity |].
  rewrite run_snoc, countEvents_snoc.
  destruct e as [[f |] raw | | | | | raw]; cbn; rewrite ?Nat.add_0_r.
  - unfold animate. cbn. rewrite initAudio_analyser.
    unfold initAudio. destruct (analyser (run events)); cbn; exact IH.
  - rewrite Nat.add_1_r, replicate_S_end, <- IH.
    unfold initAudio. by destruct (analyser (run events)).
  - by destruct (readsInFlight (run events)).
  - by destruct (readsInFlight (run events)).
  - by destruct (decodesInFlight (run events)).
  - by destruct (decodesInFlight (run events)).
  - destruct (rafPending (run events)); [exact IH |].
    unfold onAnimationFrame, animate. cbn.
    by destruct (analyser (run events)), (shape (run events)).
Qed.

(** X14: the upload form is on screen exactly while the scheduler is Idle:
    the click that hides it is the click that starts the tick loop. *)
Theorem form_visible_iff_idle (events : list Event) :
  formVisible (run events) = true <-> scheduler (run events) = Idle.
Proof.
  apply (run_invariant sphereVertices
           (fun s => formVisible s = true <-> scheduler s = Idle)); [done |].
  intros s e IH. unfold scheduler in *.
  destruct e as [[f |] raw | | | | | raw]; cbn.
  - unfold animate. cbn. rewrite initAudio_analyser.
    destruct (analyser s); cbn; done.
  - unfold initAudio. destruct (analyser s); cbn; exact IH.
  - destruct (readsInFlight s); cbn; exact IH.
  - destruct (readsInFlight s); cbn; exact IH.
  - destruct (decodesInFlight s); cbn; exact IH.
  - destruct (decodesInFlight s); cbn; exact IH.
  - destruct (rafPending s) eqn:E; [by rewrite E |].
    unfold onAnimationFrame, animate. cbn.
    destruct (analyser s), (shape s); cbn; done.
Qed.

(** X15: the audio context and the analyser are created by the first
    click, with or without a file: they exist if and only if the play
    button has been clicked. *)
Theorem analyser_exists_iff_clicked (events : list Event) :
  analyser (run events)
  = match countEvents isClick events with
    | O => None
    | S _ => Some {| fftSize := 8192 |}
    end.
Proof.
  induction events as [| e events IH] using rev_ind; [reflexivity |].
  rewrite run_snoc, countEvents_snoc.
  destruct e as [[f |] raw | | | | | raw]; cbn; rewrite ?Nat.add_0_r.
  - rewrite animate_analyser. cbn. rewrite initAudio_analyser, IH, Nat.add_1_r.
    by destruct (countEvents isClick events).
  - rewrite initAudio_analyser, IH, Nat.add_1_r.
    by destruct (countEvents isClick events).
  - by destruct (readsInFlight (run events)).
  - by destruct (readsInFlight (run events)).
  - by destruct (decodesInFlight (run events)).
  - by destruct (decodesInFlight (run events)).
  - destruct (rafPending (run events)); [exact IH |].
    unfold onAnimationFrame. rewrite animate_analyser. exact IH.
Qed.

End PageBehaviour.

(** ** Camera and renderer under resizing *)

Lemma div_of_nat (w h : nat) :
  (h <> 0 -> JS.div (JS.of_nat w) (JS.of_nat h) = JS.fin (INR w / INR h)) /\
  (h = 0 -> JS.div (JS.of_nat w) (JS.of_nat h) = JS.NaN).
Proof.
  unfold JS.div, JS.of_nat, JS.fin. split.
  - intros Hh. destruct (Req_dec_T (INR h) 0) as [E | _]; [| reflexivity].
    by apply not_0_INR in Hh.
  - intros ->. cbn [INR]. destruct (Req_dec_T 0 0); [reflexivity | lra].
Qed.

(** X16: after loading and any number of resizes the renderer has the size
    of the window as it is now, the camera's aspect ratio is that width
    over that height (not a finite number when the height is 0), the
    projection has been recomputed from it, and the other camera settings
    are those of the load. *)
Theorem view_follows_window (innerWidth innerHeight : nat)
    (sizes : list (nat * nat)) :
  let v := resizeAll sizes (initialView innerWidth innerHeight) in
  let size := List.last sizes (innerWidth, innerHeight) in
  rendererWidth v = size.1 /\
  rendererHeight v = size.2 /\
  aspect v = JS.div (JS.of_nat size.1) (JS.of_nat size.2) /\
  (size.2 <> 0 -> aspect v = JS.fin (INR size.1 / INR size.2)) /\
  (size.2 = 0 -> aspect v = JS.NaN) /\
  projectedAspect v = aspect v /\
  fov v = 75%R /\ near v = 0.1%R /\ far v = 1000%R /\ cameraZ v = 5%R /\
  clearColor v = 0%Z.
Proof.
  induction sizes as [| size sizes IH] using rev_ind.
  - cbn. pose proof (div_of_nat innerWidth innerHeight) as [Hfin Hnan].
    by repeat split.
  - unfold resizeAll in *. rewrite fold_left_app, last_last. cbn zeta in *.
    destruct IH as (_ & _ & _ & _ & _ & _ & Hfov & Hnear & Hfar & Hz & Hc).
    cbn. pose proof (div_of_nat size.1 size.2) as [Hfin Hnan].
    by repeat split.
Qed.

(** ** The further properties on sample data *)

Lemma scale_stays_in_range_witness :
  frequencyData mixedFrame <> [] /\
  exists r : R,
    scale (animateShape mixedFrame twoVertices) = JS.fin r /\
    (1 <= r <= 4.825)%R.
Proof.
  assert (frequencyData mixedFrame <> []) as Hne by discriminate.
  split; [exact Hne |].
  exact (scale_stays_in_range mixedFrame twoVertices Hne).
Defined.

Lemma hue_stays_in_range_witness :
  frequencyData mixedFrame <> [] /\
  exists h : R,
    color (animateShape mixedFrame twoVertices)
      = ColorHSL (JS.fin h) (JS.fin 1) (JS.fin 0.5) /\
    (0 <= h <= 1)%R.
Proof.
  assert (frequencyData mixedFrame <> []) as Hne by discriminate.
  split; [exact Hne |].
  exact (hue_stays_in_range mixedFrame twoVertices Hne).
Defined.

Lemma samples_wrap_around_witness :
  timeDomainData mixedFrame <> [] /\
  waveFactor (timeDomainData mixedFrame) (1 + length (timeDomainData mixedFrame))
    = waveFactor (timeDomainData mixedFrame) 1.
Proof.
  assert (timeDomainData mixedFrame <> []) as Hne by discriminate.
  split; [exact Hne |].
  exact (proj1 (samples_wrap_around (timeDomainData mixedFrame) 1 Hne)).
Defined.


Lemma running_is_forever_witness :
  let events := [Click (Some [x00]) silentFrame] in
  let events' := [DecodeReject; AnimationFrame loudFrame; ReaderError] in
  scheduler (run [(1, 0, 0)%R] events) = Running /\
  scheduler (run [(1, 0, 0)%R] (events ++ events')) = Running /\
  draws (run [(1, 0, 0)%R] events)
    <= draws (run [(1, 0, 0)%R] (events ++ events')).
Proof.
  intros events events'.
  assert (scheduler (run [(1, 0, 0)%R] events) = Running) as Hrun by reflexivity.
  split; [exact Hrun |].
  exact (running_is_forever [(1, 0, 0)%R] events events' Hrun).
Defined.

Lemma animation_frame_always_draws_witness :
  let events := [Click (Some [x00]) silentFrame; ReaderLoad] in
  let s := run [(1, 0, 0)%R] events in
  rafPending s <> 0 /\
  exists a m,
    analyser s = Some a /\
    shape s = Some m /\
    let s' := step [(1, 0, 0)%R] s (AnimationFrame loudFrame) in
    shape s' = Some (animateShape (sampleFrame a loudFrame) m) /\
    draws s' = S (draws s) /\
    rafPending s' = rafPending s.
Proof.
  intros events s.
  assert (rafPending s <> 0) as Hraf by (cbn; lia).
  split; [exact Hraf |].
  exact (animation_frame_always_draws [(1, 0, 0)%R] events loudFrame Hraf).
Defined.

Lemma shape_rest_pose_is_sphere_witness :
  let events := [Click (Some [x00]) silentFrame; AnimationFrame loudFrame] in
  exists m,
    shape (run [(1, 0, 0)%R] events) = Some m /\
    wellFormed m /\
    originalPositions m = Some (position (createSphere [(1, 0, 0)%R])).
Proof.
  intros events.
  destruct (shape (run [(1, 0, 0)%R] events)) as [m |] eqn:Hshape;
    [| cbn in Hshape; discriminate].
  exists m. split; [reflexivity |].
  exact (shape_rest_pose_is_sphere [(1, 0, 0)%R] events m Hshape).
Defined.

(** ** Rounding in the machine model *)

Section Digits.

Local Open Scope Z_scope.

Lemma digits_bounds p :
  2 ^ (Zpos (digits2_pos p) - 1) <= Zpos p < 2 ^ Zpos (digits2_pos p).
Proof.
  induction p as [p IH | p IH |]; cbn [digits2_pos].
  - rewrite Pos2Z.inj_succ.
    replace (Z.succ (Zpos (digits2_pos p)) - 1) with (Z.succ (Zpos (digits2_pos p) - 1)) by lia.
    rewrite !Z.pow_succ_r by lia. lia.
  - rewrite Pos2Z.inj_succ.
    replace (Z.succ (Zpos (digits2_pos p)) - 1) with (Z.succ (Zpos (digits2_pos p) - 1)) by lia.
    rewrite !Z.pow_succ_r by lia. lia.
  - cbn. lia.
Qed.

Lemma digits_ge p k :
  0 <= k -> 2 ^ k <= Zpos p -> k + 1 <= Zpos (digits2_pos p).
Proof.
  intros Hk Hp.
  destruct (Z_lt_le_dec (Zpos (digits2_pos p)) (k + 1)) as [Hlt | Hge]; [| exact Hge].
  pose proof (digits_bounds p) as [_ Hup].
  assert (2 ^ Zpos (digits2_pos p) <= 2 ^ k) by (apply Z.pow_le_mono_r; lia).
  lia.
Qed.

Lemma digits_iter_xO p k :
  Zpos (digits2_pos (Pos.iter xO p k)) = Zpos (digits2_pos p) + Zpos k.
Proof.
  induction k as [| k IH] using Pos.peano_ind.
  - cbn. lia.
  - rewrite Pos.iter_succ. cbn [digits2_pos]. lia.
Qed.

Lemma shr_1_m mrs : 0 <= shr_m mrs -> shr_m (shr_1 mrs) = shr_m mrs / 2.
Proof.
  destruct mrs as [m r s]. cbn [shr_m]. intros Hm.
  destruct m as [| [p | p |] | p]; cbn; try lia; Z.div_mod_to_equations; lia.
Qed.

Lemma iter_shr_1_m p mrs :
  0 <= shr_m mrs -> shr_m (SpecFloat.iter_pos shr_1 p mrs) = shr_m mrs / 2 ^ Zpos p.
Proof.
  revert mrs. induction p as [p IH | p IH |]; intros mrs Hm; cbn [SpecFloat.iter_pos].
  - assert (0 <= shr_m (shr_1 mrs)) as H1
      by (rewrite shr_1_m by lia; apply Z.div_pos; lia).
    assert (0 <= shr_m (SpecFloat.iter_pos shr_1 p (shr_1 mrs))) as H2
      by (rewrite IH by lia; apply Z.div_pos; [lia | apply Z.pow_pos_nonneg; lia]).
    rewrite IH, IH, shr_1_m by lia.
    rewrite !Z.div_div by (try apply Z.pow_pos_nonneg; lia).
    f_equal. replace (Zpos p~1) with (Zpos p + Zpos p + 1) by lia.
    rewrite !Z.pow_add_r, Z.pow_1_r by lia. ring.
  - assert (0 <= shr_m (SpecFloat.iter_pos shr_1 p mrs)) as H2
      by (rewrite IH by lia; apply Z.div_pos; [lia | apply Z.pow_pos_nonneg; lia]).
    rewrite IH, IH by lia.
    rewrite !Z.div_div by (try apply Z.pow_pos_nonneg; lia).
    f_equal. replace (Zpos p~0) with (Zpos p + Zpos p) by lia.
    rewrite !Z.pow_add_r by lia. ring.
  - rewrite shr_1_m by lia. reflexivity.
Qed.

Lemma round_bounds q l : q <= round_nearest_even q l <= q + 1.
Proof. destruct l as [| []]; cbn; try destruct (Z.even q); lia. Qed.

Lemma quotient_digits p n :
  0 < n < Zpos (digits2_pos p) ->
  exists q, Zpos p / 2 ^ n = Zpos q /\
            Zpos (digits2_pos p) - n <= Zpos (digits2_pos q).
Proof.
  intros Hn.
  pose proof (digits_bounds p) as [Hlo _].
  assert (0 < 2 ^ n) as Hpow by (apply Z.pow_pos_nonneg; lia).
  assert (2 ^ (Zpos (digits2_pos p) - 1 - n) <= Zpos p / 2 ^ n) as Hq.
  { apply Z.div_le_lower_bound; [exact Hpow |].
    rewrite <- Z.pow_add_r by lia.
    replace (n + (Zpos (digits2_pos p) - 1 - n)) with (Zpos (digits2_pos p) - 1) by lia.
    exact Hlo. }
  assert (0 < 2 ^ (Zpos (digits2_pos p) - 1 - n)) by (apply Z.pow_pos_nonneg; lia).
  destruct (Zpos p / 2 ^ n) as [| q | q] eqn:E; try lia.
  exists q. split; [reflexivity |].
  pose proof (digits_ge q (Zpos (digits2_pos p) - 1 - n)). lia.
Qed.

End Digits.

Section Rounding.

Local Open Scope Z_scope.


Variables prec emax : Z.
Hypothesis prec_pos : 0 < prec.

(** Rounding a positive mantissa whose magnitude lies above the smallest
    exponent never gives zero, keeps the sign and does not lower the
    magnitude. *)
Lemma binary_round_aux_magnitude s P e :
  emin prec emax < Zpos (digits2_pos P) + e ->
  exists m' e',
    binary_round_aux prec emax s (Zpos P) e loc_Exact
      = (if e' <=? emax - prec then S754_finite s m' e' else S754_infinity s) /\
    Zpos (digits2_pos P) + e <= Zpos (digits2_pos m') + e'.
Proof.
  intros Hmag. unfold binary_round_aux, shr_fexp. cbn [Zdigits2 shr_record_of_loc].
  set (d := Zpos (digits2_pos P)) in *.
  assert (emin prec emax <= fexp prec emax (d + e)) as Hfexp by (unfold fexp; lia).
  destruct (fexp prec emax (d + e) - e) as [| n | n] eqn:En; cbn [shr].
  - cbn [shr_m loc_of_shr_record round_nearest_even Zdigits2 shr_record_of_loc].
    fold d. rewrite En. cbn [shr shr_m]. exists P, e. split; [reflexivity | lia].
  - assert (0 < Zpos n < d) as Hn by (unfold fexp in En; lia).
    set (mrs := SpecFloat.iter_pos shr_1 n _).
    assert (shr_m mrs = Zpos P / 2 ^ Zpos n) as Hq
      by (subst mrs; rewrite iter_shr_1_m by (cbn; lia); reflexivity).
    destruct (quotient_digits P (Zpos n) Hn) as (q & Eq & Hdq). fold d in Hdq.
    pose proof (round_bounds (shr_m mrs) (loc_of_shr_record mrs)) as Hr.
    rewrite Hq, Eq in Hr.
    rewrite Hq, Eq.
    destruct (round_nearest_even (Zpos q) (loc_of_shr_record mrs)) as [| r | r] eqn:Er;
      try lia.
    assert (Zpos (digits2_pos q) <= Zpos (digits2_pos r)) as Hdr.
    { pose proof (digits_bounds q) as [Hlo _].
      pose proof (digits_ge r (Zpos (digits2_pos q) - 1)). lia. }
    cbn [Zdigits2 shr_record_of_loc].
    set (dr := Zpos (digits2_pos r)) in *.
    destruct (fexp prec emax (dr + (e + Zpos n)) - (e + Zpos n)) as [| n2 | n2] eqn:En2;
      cbn [shr].
    + cbn [shr_m]. exists r, (e + Zpos n). split; [reflexivity | lia].
    + assert (0 < Zpos n2 < dr) as Hn2 by (unfold fexp in En2, En; lia).
      rewrite iter_shr_1_m by (cbn; lia). cbn [shr_m].
      destruct (quotient_digits r (Zpos n2) Hn2) as (q2 & Eq2 & Hdq2). fold dr in Hdq2.
      rewrite Eq2. exists q2, (e + Zpos n + Zpos n2). split; [reflexivity | lia].
    + cbn [shr_m]. exists r, (e + Zpos n). split; [reflexivity | lia].
  - cbn [shr_m loc_of_shr_record round_nearest_even Zdigits2 shr_record_of_loc].
    fold d. rewrite En. cbn [shr shr_m]. exists P, e. split; [reflexivity | lia].
Qed.

Lemma binary_round_magnitude s m e :
  emin prec emax < Zpos (digits2_pos m) + e ->
  exists m' e',
    binary_round prec emax s m e
      = (if e' <=? emax - prec then S754_finite s m' e' else S754_infinity s) /\
    Zpos (digits2_pos m) + e <= Zpos (digits2_pos m') + e'.
Proof.
  intros Hmag. unfold binary_round, shl_align.
  destruct (fexp prec emax (Zpos (digits2_pos m) + e) - e) as [| k | k] eqn:Ek.
  - apply binary_round_aux_magnitude. exact Hmag.
  - apply binary_round_aux_magnitude. exact Hmag.
  - destruct (binary_round_aux_magnitude s (Pos.iter xO m k)
                (fexp prec emax (Zpos (digits2_pos m) + e)))
      as (m' & e' & Hr & Hm).
    { rewrite digits_iter_xO. lia. }
    exists m', e'. split; [exact Hr |].
    rewrite digits_iter_xO in Hm. lia.
Qed.

Lemma SFmul_magnitude sx mx ex sy my ey :
  emin prec emax < Zpos (digits2_pos mx) + ex + (Zpos (digits2_pos my) + ey) - 1 ->
  exists m' e',
    SFmul prec emax (S754_finite sx mx ex) (S754_finite sy my ey)
      = (if e' <=? emax - prec
         then S754_finite (xorb sx sy) m' e'
         else S754_infinity (xorb sx sy)) /\
    Zpos (digits2_pos mx) + ex + (Zpos (digits2_pos my) + ey) - 1
      <= Zpos (digits2_pos m') + e'.
Proof.
  intros Hmag. cbn [SFmul].
  assert (Zpos (digits2_pos mx) + Zpos (digits2_pos my) - 1
            <= Zpos (digits2_pos (mx * my))) as Hd.
  { pose proof (digits_bounds mx) as [Hx _].
    pose proof (digits_bounds my) as [Hy _].
    pose proof (digits_ge (mx * my)
                  (Zpos (digits2_pos mx) - 1 + (Zpos (digits2_pos my) - 1))) as Hge.
    rewrite Z.pow_add_r in Hge by lia. rewrite Pos2Z.inj_mul in Hge.
    assert (0 < 2 ^ (Zpos (digits2_pos mx) - 1)) by (apply Z.pow_pos_nonneg; lia).
    assert (0 < 2 ^ (Zpos (digits2_pos my) - 1)) by (apply Z.pow_pos_nonneg; lia).
    assert (2 ^ (Zpos (digits2_pos mx) - 1) * 2 ^ (Zpos (digits2_pos my) - 1)
              <= Zpos mx * Zpos my) by (apply Z.mul_le_mono_nonneg; lia).
    lia. }
  destruct (binary_round_aux_magnitude (xorb sx sy) (mx * my) (ex + ey))
    as (m' & e' & Hr & Hm); [lia |].
  exists m', e'. split; [exact Hr | lia].
Qed.

End Rounding.

Section Exact.

Local Open Scope Z_scope.






Variables prec emax : Z.
Hypothesis prec_pos : 0 < prec.



End Exact.

Section Integers.

Local Open Scope Z_scope.






End Integers.

(** ** The machine model, slot by slot *)

Lemma machine_deformVertex_length orig td arr i :
  length (Machine.deformVertex orig td arr i) = length arr.
Proof. unfold Machine.deformVertex, Machine.f32Set. by rewrite !length_insert. Qed.

Lemma machine_deformLoop_length orig td n arr :
  length (Machine.deformLoop orig td n arr) = length arr.
Proof.
  unfold Machine.deformLoop. induction n as [| n IH]; [reflexivity |].
  rewrite seq_S, fold_left_app. cbn [fold_left].
  by rewrite machine_deformVertex_length.
Qed.

Lemma machine_deformVertex_lookup orig td arr i j :
  Machine.deformVertex orig td arr i !! j =
    if decide (i * 3 <= j < i * 3 + 3 /\ j < length arr)
    then Some (Machine.fround
                 (Machine.mul (Machine.f32At orig j) (Machine.waveFactor td i)))
    else arr !! j.
Proof.
  unfold Machine.deformVertex, Machine.f32Set.
  case_decide as Hj.
  - destruct Hj as [[Hlo Hhi] Hlen].
    destruct (decide (j = i * 3 + 2)) as [-> | N2].
    { rewrite list_lookup_insert_eq; [done |]. by rewrite !length_insert. }
    rewrite list_lookup_insert_ne by lia.
    destruct (decide (j = i * 3 + 1)) as [-> | N1].
    { rewrite list_lookup_insert_eq; [done |]. by rewrite !length_insert. }
    rewrite list_lookup_insert_ne by lia.
    assert (j = i * 3) as -> by lia.
    by rewrite list_lookup_insert_eq.
  - destruct (decide (j < length arr)) as [Hlen | Hlen].
    + rewrite !list_lookup_insert_ne by lia. done.
    + rewrite !(proj2 (lookup_ge_None _ _)); [done | lia |].
      rewrite !length_insert. lia.
Qed.

Lemma machine_deformLoop_lookup orig td n arr j :
  Machine.deformLoop orig td n arr !! j =
    if decide (j < n * 3 /\ j < length arr)
    then Some (Machine.fround
                 (Machine.mul (Machine.f32At orig j) (Machine.waveFactor td (j / 3))))
    else arr !! j.
Proof.
  induction n as [| n IH].
  - destruct (decide (j < 0 * 3 /\ j < length arr)); [lia | done].
  - unfold Machine.deformLoop. rewrite seq_S, fold_left_app.
    cbn [fold_left Nat.add].
    fold (Machine.deformLoop orig td n arr).
    rewrite machine_deformVertex_lookup, machine_deformLoop_length, IH.
    repeat case_decide; try lia; try done.
    assert (j / 3 = n) as ->
      by (symmetry; apply Nat.div_unique with (r := j - n * 3); lia).
    done.
Qed.

(** In the machine model a pass stores, in every slot of a vertex within
    the array, the binary32 rounding of the rest value times the factor of
    that vertex. *)
Lemma machine_slot_written frame M i k :
  i < Machine.count M -> k < 3 -> i * 3 + k < length (Machine.position M) ->
  Machine.position (Machine.animateShape frame M) !! (i * 3 + k) =
    Some (Machine.fround
            (Machine.mul (Machine.f32At (Machine.restPose M) (i * 3 + k))
               (Machine.waveFactor (timeDomainData frame) i))).
Proof.
  intros Hi Hk Hlen.
  unfold Machine.animateShape. cbn [Machine.position].
  rewrite machine_deformLoop_lookup.
  case_decide as Hj; [| lia].
  assert ((i * 3 + k) / 3 = i) as ->
    by (symmetry; apply Nat.div_unique with (r := k); lia).
  done.
Qed.

(** The factor of a vertex is the factor of the sample it reads. *)
Lemma machine_factor_of_sample td i b :
  td !! (i mod length td) = Some b ->
  Machine.waveFactor td i = Machine.waveFactor [b] 0.
Proof.
  intros Hb. unfold Machine.waveFactor, Machine.timeDomainValue, Machine.u8At.
  by rewrite Hb.
Qed.

(** The factor of each of the 256 samples, checked one by one. *)
Lemma factor_table b : Machine.factorInRange (Machine.waveFactor [b] 0) = true.
Proof. destruct b; vm_compute; reflexivity. Qed.

(** The smallest binary32 numbers under each of the 256 factors, checked
    one by one. *)
Lemma smallest_table s b : Machine.smallestKeepsSign s b = true.
Proof. destruct s, b; vm_compute; reflexivity. Qed.

(** A finite binary32 number is either the smallest one or of magnitude
    at least [2 ^ -148]. *)
Lemma binary32_magnitude s m e :
  valid_binary 24 128 (S754_finite s m e) = true ->
  (-147 <= Zpos (digits2_pos m) + e)%Z \/ (m = 1%positive /\ e = (-149)%Z).
Proof.
  cbn [valid_binary]. unfold bounded, canonical_mantissa, fexp, emin.
  intros Hv. apply andb_prop in Hv as [Hc _]. apply Z.eqb_eq in Hc.
  destruct m as [p | p |].
  - left. cbn [digits2_pos] in *. lia.
  - left. cbn [digits2_pos] in *. lia.
  - cbn [digits2_pos] in *. lia.
Qed.

(** A binary32 number of magnitude at least [2 ^ -148], read from the
    array, multiplied in binary64 by a positive number of magnitude at
    least 1/2 and stored back, is away from zero and keeps its sign. *)
Lemma stored_product_keeps_sign sx mx ex mf ef :
  (-147 <= Zpos (digits2_pos mx) + ex)%Z ->
  (0 <= Zpos (digits2_pos mf) + ef)%Z ->
  let y :=
    Machine.fround
      (Machine.mul (Machine.widen (S754_finite sx mx ex)) (S754_finite false mf ef)) in
  Machine.awayFromZero y = true /\ Machine.signOf y = Some sx.
Proof.
  intros Hx Hf. cbn zeta. cbn [Machine.widen].
  destruct (binary_round_magnitude 53 1024 ltac:(lia) sx mx ex)
    as (m1 & e1 & -> & Hm1); [unfold emin; lia |].
  destruct (e1 <=? 1024 - 53)%Z.
  - unfold Machine.mul.
    destruct (SFmul_magnitude 53 1024 ltac:(lia) sx m1 e1 false mf ef)
      as (m2 & e2 & -> & Hm2); [unfold emin; lia |].
    rewrite xorb_false_r.
    destruct (e2 <=? 1024 - 53)%Z; [| done].
    cbn [Machine.fround].
    destruct (binary_round_magnitude 24 128 ltac:(lia) sx m2 e2)
      as (m3 & e3 & -> & _); [unfold emin; lia |].
    by destruct (e3 <=? 128 - 24)%Z.
  - cbn. by rewrite xorb_false_r.
Qed.

(** ** Scale, scalar multiple and factor bounds on the machine *)










(** C6 as stated fails: the vertex at rest (1, 2, -3), deformed with
    sample 255, is stored as three binary32 numbers that are not the rest
    coordinates times any one scalar. *)
Lemma stored_vertex_has_no_common_scalar :
  let rest := Machine.position Machine.oneVertex in
  let live :=
    Machine.position (Machine.animateShape loudFrame Machine.oneVertex) in
  live = [S754_finite false 8679916 (-23); S754_finite false 8679916 (-22);
          S754_finite true 13019873 (-22)] /\
  forall s : Q,
    ~ (forall j x y, rest !! j = Some x -> live !! j = Some y ->
         (Machine.exact y == Machine.exact x * s)%Q).
Proof.
  assert (Machine.position (Machine.animateShape loudFrame Machine.oneVertex)
          = [S754_finite false 8679916 (-23); S754_finite false 8679916 (-22);
             S754_finite true 13019873 (-22)]) as Hlive
    by (vm_compute; reflexivity).
  assert (Machine.position Machine.oneVertex
          = [S754_finite false 8388608 (-23); S754_finite false 8388608 (-22);
             S754_finite true 12582912 (-22)]) as Hrest
    by (vm_compute; reflexivity).
  cbn zeta. rewrite Hlive, Hrest. split; [reflexivity |].
  intros s H.
  pose proof (H 0 _ _ eq_refl eq_refl) as H0.
  pose proof (H 2 _ _ eq_refl eq_refl) as H2.
  assert (Machine.exact (S754_finite true 13019873 (-22))
            * Machine.exact (S754_finite false 8388608 (-23))
          == Machine.exact (S754_finite false 8679916 (-23))
            * Machine.exact (S754_finite true 12582912 (-22)))%Q as Hc
    by (rewrite H0, H2; ring).
  apply Qeq_bool_iff in Hc. vm_compute in Hc. discriminate.
Qed.

(** C6, amended: after a pass each live coordinate of a vertex is the
    binary32 rounding of its rest coordinate times a scalar; the scalar is
    the same binary64 number for the three axes, it is fixed by the frame's
    time-domain samples and the vertex index alone, whatever the mesh and
    whatever it held before, and for a non-empty sample array it is a
    positive finite number. *)
Theorem live_is_rounded_multiple_of_rest (frame : AnalysisFrame) (i : nat) :
  let s := Machine.waveFactor (timeDomainData frame) i in
  (timeDomainData frame <> [] -> exists m e, s = S754_finite false m e) /\
  forall (M : Machine.Mesh) (k : nat),
    i < Machine.count M -> k < 3 -> i * 3 + k < length (Machine.position M) ->
    Machine.position (Machine.animateShape frame M) !! (i * 3 + k) =
      Some (Machine.fround
              (Machine.mul (Machine.f32At (Machine.restPose M) (i * 3 + k)) s)).
Proof.
  cbn zeta. split.
  - intros Hne.
    destruct (sample_in_range (timeDomainData frame) i Hne) as [_ [b Hb]].
    rewrite (machine_factor_of_sample _ _ _ Hb).
    pose proof (factor_table b) as Ht.
    destruct (Machine.waveFactor [b] 0) as [| | | [] m e]; try discriminate.
    by exists m, e.
  - intros M k. apply machine_slot_written.
Qed.

(** C10, amended: for every sample byte the factor the code computes in
    binary64 is a positive finite number between the binary64 numbers 0.965
    and 1.0347265625, its exact value lying in
    [0.9649999999999999, 1.0347265625]; a slot whose rest value is a finite
    non-zero binary32 number is stored as a number away from zero, of the
    same sign. *)
Theorem waveFactor_machine_bounds (frame : AnalysisFrame) (i : nat) (b : byte) :
  timeDomainData frame !! (i mod length (timeDomainData frame)) = Some b ->
  let s := Machine.waveFactor (timeDomainData frame) i in
  s = Machine.add (Machine.of_Z 1)
        (Machine.mul
           (Machine.sub (Machine.div (Machine.of_byte b) (Machine.of_Z 128))
              (Machine.of_Z 1))
           (Machine.decimal 35 1000)) /\
  (exists m e, s = S754_finite false m e) /\
  SFleb (Machine.decimal 965 1000) s = true /\
  SFleb s (Machine.decimal 10347265625 10000000000) = true /\
  SFltb (Machine.of_Z 0) s = true /\
  (9649999999999999 # 10000000000000000 <= Machine.exact s)%Q /\
  (Machine.exact s <= 10347265625 # 10000000000)%Q /\
  forall (M : Machine.Mesh) (k : nat) (x : spec_float),
    i < Machine.count M -> k < 3 -> i * 3 + k < length (Machine.position M) ->
    Machine.restPose M !! (i * 3 + k) = Some x ->
    valid_binary 24 128 x = true -> Machine.finiteNonzero x ->
    exists y,
      Machine.position (Machine.animateShape frame M) !! (i * 3 + k) = Some y /\
      Machine.awayFromZero y = true /\
      Machine.signOf y = Machine.signOf x.
Proof.
  intros Hb. cbn zeta.
  split.
  { unfold Machine.waveFactor, Machine.timeDomainValue, Machine.u8At.
    by rewrite Hb. }
  rewrite (machine_factor_of_sample _ _ _ Hb).
  pose proof (factor_table b) as Ht.
  destruct (Machine.waveFactor [b] 0) as [| | | [] mf ef] eqn:Ef;
    try discriminate.
  pose proof Ht as Ht'. cbn [Machine.factorInRange] in Ht'.
  repeat (apply andb_prop in Ht' as [Ht' ?]).
  apply Z.leb_le in Ht'.
  split; [by exists mf, ef |].
  split; [done |]. split; [done |]. split; [done |].
  split; [by apply Qle_bool_iff |]. split; [by apply Qle_bool_iff |].
  intros M k x Hi Hk Hlen Hrest Hvalid (sx & mx & ex & ->).
  rewrite machine_slot_written by done.
  rewrite (machine_factor_of_sample _ _ _ Hb).
  unfold Machine.f32At. rewrite Hrest.
  eexists. split; [reflexivity |]. cbn [Machine.signOf].
  destruct (binary32_magnitude sx mx ex Hvalid) as [Hmag | [-> ->]].
  - rewrite Ef. by apply stored_product_keeps_sign.
  - pose proof (smallest_table sx b) as Hsm.
    unfold Machine.smallestKeepsSign in Hsm. cbn zeta in Hsm.
    apply andb_prop in Hsm as [Haway Hsign].
    split; [exact Haway |].
    destruct (Machine.signOf _) as [s' |]; [| discriminate].
    apply Bool.eqb_prop in Hsign. by subst.
Qed.

Lemma live_is_rounded_multiple_of_rest_witness :
  0 < Machine.count Machine.oneVertex /\ 2 < 3 /\
  0 * 3 + 2 < length (Machine.position Machine.oneVertex) /\
  Machine.waveFactor (timeDomainData loudFrame) 0
    = S754_finite false 4659994161305354 (-52) /\
  Machine.position (Machine.animateShape loudFrame Machine.oneVertex) !! (0 * 3 + 2)
    = Some (Machine.fround
              (Machine.mul
                 (Machine.f32At (Machine.restPose Machine.oneVertex) (0 * 3 + 2))
                 (Machine.waveFactor (timeDomainData loudFrame) 0))) /\
  Machine.fround
    (Machine.mul (Machine.f32At (Machine.restPose Machine.oneVertex) (0 * 3 + 2))
       (Machine.waveFactor (timeDomainData loudFrame) 0))
    = S754_finite true 13019873 (-22).
Proof.
  assert (0 < Machine.count Machine.oneVertex) as Hi by (cbn; lia).
  assert (2 < 3) as Hk by lia.
  assert (0 * 3 + 2 < length (Machine.position Machine.oneVertex)) as Hlen
    by (cbn; lia).
  do 3 (split; [assumption |]).
  split; [vm_compute; reflexivity |].
  split; [| vm_compute; reflexivity].
  exact (proj2 (live_is_rounded_multiple_of_rest loudFrame 0)
           Machine.oneVertex 2 Hi Hk Hlen).
Defined.

Lemma waveFactor_machine_bounds_witness :
  timeDomainData loudFrame !! (0 mod length (timeDomainData loudFrame))
    = Some xff /\
  SFleb (Machine.decimal 965 1000)
    (Machine.waveFactor (timeDomainData loudFrame) 0) = true /\
  SFleb (Machine.waveFactor (timeDomainData loudFrame) 0)
    (Machine.decimal 10347265625 10000000000) = true /\
  0 < Machine.count Machine.oneVertex /\ 2 < 3 /\
  0 * 3 + 2 < length (Machine.position Machine.oneVertex) /\
  Machine.restPose Machine.oneVertex !! (0 * 3 + 2)
    = Some (S754_finite true 12582912 (-22)) /\
  valid_binary 24 128 (S754_finite true 12582912 (-22)) = true /\
  Machine.finiteNonzero (S754_finite true 12582912 (-22)) /\
  exists y,
    Machine.position (Machine.animateShape loudFrame Machine.oneVertex)
      !! (0 * 3 + 2) = Some y /\
    Machine.awayFromZero y = true /\
    Machine.signOf y = Some true.
Proof.
  assert (timeDomainData loudFrame !! (0 mod length (timeDomainData loudFrame))
            = Some xff) as Hb by reflexivity.
  assert (0 < Machine.count Machine.oneVertex) as Hi by (cbn; lia).
  assert (2 < 3) as Hk by lia.
  assert (0 * 3 + 2 < length (Machine.position Machine.oneVertex)) as Hlen
    by (cbn; lia).
  assert (Machine.restPose Machine.oneVertex !! (0 * 3 + 2)
            = Some (S754_finite true 12582912 (-22))) as Hrest
    by (vm_compute; reflexivity).
  assert (valid_binary 24 128 (S754_finite true 12582912 (-22)) = true) as Hvalid
    by (vm_compute; reflexivity).
  assert (Machine.finiteNonzero (S754_finite true 12582912 (-22))) as Hfin
    by (by exists true, 12582912%positive, (-22)%Z).
  destruct (waveFactor_machine_bounds loudFrame 0 xff Hb)
    as (_ & _ & Hlo & Hhi & _ & _ & _ & Hstore).
  split; [exact Hb |]. split; [exact Hlo |]. split; [exact Hhi |].
  do 3 (split; [assumption |]).
  split; [exact Hrest |]. split; [exact Hvalid |]. split; [exact Hfin |].
  exact (Hstore Machine.oneVertex 2 _ Hi Hk Hlen Hrest Hvalid Hfin).
Defined.
